(** * Speaker diarization engine

    A shallow embedding of
    [frontend/src-tauri/python/diarization_engine.py]: the class
    [DiarizationEngine] with its methods [process_audio],
    [_extract_embedding] and [process_audio_chunk].

    - Python floats are IEEE binary64 values: [spec_float] with the
      operations of [SpecFloat] at precision 53 and maximal exponent 1024.
    - Python integers are unbounded: [Z].
    - Exceptions are values of [PyExc]; a computation that can raise has a
      result in [PyExc + A].
    - torch, torchaudio and the two pyannote models are collaborators of the
      engine: they are the fields of [Models]; every invocation of one of
      them is recorded in a trace of [Call]s, threaded through the monad [M].
    - Diagnostics printed on stderr do not influence any result and are
      left out. *)

From Stdlib Require Import ZArith List String Bool Lia.
From Stdlib Require Import Floats.SpecFloat.
From Stdlib Require Import Ascii.
From stdpp Require Import gmap strings pretty list.

Local Open Scope Z_scope.

(** ** Exceptions *)

Record PyExc := mkExc { exc_class : string; exc_msg : string }.

(** [str(e)] *)
Definition str (e : PyExc) : string := exc_msg e.

Definition Exc (A : Type) : Type := (PyExc + A)%type.

(** ** Floats and integers, as Python computes with them *)

Module PyFloat.

Definition prec : Z := 53.
Definition emax : Z := 1024.

Abbreviation float := spec_float.

Definition sub (x y : float) : float := SFsub prec emax x y.
Definition mul (x y : float) : float := SFmul prec emax x y.
Definition ltb (x y : float) : bool := SFltb x y.
Definition eqb (x y : float) : bool := SFeqb x y.

(** The float nearest to an integer (ties to even); infinite when the
    integer is out of range. *)
Definition of_Z (z : Z) : float := binary_normalize prec emax z 0 false.

(** The float nearest to the quotient of two integers, [d] not zero. *)
Definition of_quotient (n d : Z) : float :=
  let s := xorb (n <? 0) (d <? 0) in
  match n with
  | Z0 => S754_zero s
  | _ =>
      let '(q, e, l) := SFdiv_core_binary prec emax (Z.abs n) 0 (Z.abs d) 0 in
      binary_round_aux prec emax s q e l
  end.

(** The literals [1.0] and [0.5]. *)
Definition one : float := of_Z 1.
Definition half : float := of_quotient 1 2.

(** [float * int] and [int * float]: the integer is converted first. *)
Definition float_of_int (z : Z) : Exc float :=
  match of_Z z with
  | S754_infinity _ =>
      inl (mkExc "OverflowError" "int too large to convert to float")
  | f => inr f
  end.

(** [int(x)]: truncation toward zero. *)
Definition int_of_float (x : float) : Exc Z :=
  match x with
  | S754_zero _ => inr 0
  | S754_finite s m e =>
      inr (cond_Zopp s
             match e with
             | Zneg p => Z.shiftr (Zpos m) (Zpos p)
             | _ => Z.shiftl (Zpos m) e
             end)
  | S754_nan =>
      inl (mkExc "ValueError" "cannot convert float NaN to integer")
  | S754_infinity _ =>
      inl (mkExc "OverflowError" "cannot convert float infinity to integer")
  end.

(** [n / d] on two integers. *)
Definition true_div (n d : Z) : Exc float :=
  if d =? 0 then inl (mkExc "ZeroDivisionError" "division by zero")
  else
    match of_quotient n d with
    | S754_infinity _ =>
        inl (mkExc "OverflowError"
               "integer division result too large for a float")
    | f => inr f
    end.

End PyFloat.

Import PyFloat.

(** ** Tensors of shape (channels, samples) *)

Definition sample : Type := float.

Record Tensor := mkTensor { t_rows : list (list sample); t_cols : nat }.

(** [waveform.shape[0]] and [waveform.shape[1]] *)
Definition shape0 (w : Tensor) : Z := Z.of_nat (length (t_rows w)).
Definition shape1 (w : Tensor) : Z := Z.of_nat (t_cols w).

(** A slice bound [i] of a sequence of length [n]: a negative bound counts
    from the end, and every bound is clamped to [0, n]. *)
Definition slice_index (n i : Z) : Z :=
  if i <? 0 then Z.max (i + n) 0 else Z.min i n.

(** [l[a:b]] *)
Definition py_slice {A : Type} (l : list A) (a b : Z) : list A :=
  let n := Z.of_nat (length l) in
  let lo := slice_index n a in
  let hi := slice_index n b in
  take (Z.to_nat (hi - lo)) (drop (Z.to_nat lo) l).

(** [waveform[:, a:b]] *)
Definition slice_cols (w : Tensor) (a b : Z) : Tensor :=
  let lo := slice_index (shape1 w) a in
  let hi := slice_index (shape1 w) b in
  mkTensor (map (fun row => py_slice row a b) (t_rows w)) (Z.to_nat (hi - lo)).

(** [torch.nn.functional.pad(waveform, (0, padding))] *)
Definition pad_right (w : Tensor) (padding : nat) : Tensor :=
  mkTensor (map (fun row => row ++ replicate padding (S754_zero false)) (t_rows w))
           (t_cols w + padding)%nat.

(** [torch.from_numpy(audio_data).float().unsqueeze(0)] on a one-dimensional
    array *)
Definition unsqueeze0 (audio_data : list sample) : Tensor :=
  mkTensor [audio_data] (length audio_data).

(** ** The collaborators and the trace of their invocations *)

(** A speaker turn, as [diarization.itertracks(yield_label=True)] yields it:
    [turn.start], [turn.end] and the speaker token. *)
Record Turn := mkTurn { turn_start : float; turn_end : float; speaker : string }.

(** The invocations of the collaborators. A speaker hint that the caller
    leaves out is [None], its default. *)
Inductive Call :=
| CallLoad (audio_path : string)
| CallResample (orig_freq new_freq : Z) (waveform : Tensor)
| CallPipeline (waveform : Tensor) (rate : Z) (min_speakers max_speakers : option Z)
| CallEmbedding (waveform : Tensor).

Record Models := mkModels {
  (** [torchaudio.load(audio_path)] *)
  torchaudio_load : string -> Exc (Tensor * Z);
  (** [torchaudio.transforms.Resample(sr, sample_rate)(waveform)] *)
  resample : Z -> Z -> Tensor -> Exc Tensor;
  (** [torch.mean(waveform, dim=0, keepdim=True)] *)
  torch_mean_dim0 : Tensor -> Tensor;
  (** [self.pipeline({"waveform": .., "sample_rate": ..}, min_speakers=..,
      max_speakers=..)], with the turns in the order [itertracks] yields *)
  pipeline : Tensor -> Z -> option Z -> option Z -> Exc (list Turn);
  (** [self.embedding_model(waveform)] followed by
      [.cpu().numpy().flatten()] *)
  embedding_model : Tensor -> Exc (list float)
}.

(** Computations that may raise and that record the collaborators they
    invoke. *)
Definition M (A : Type) : Type := list Call -> Exc A * list Call.

Definition ret {A : Type} (a : A) : M A := fun tr => (inr a, tr).

Definition bind {A B : Type} (m : M A) (k : A -> M B) : M B :=
  fun tr =>
    match m tr with
    | (inl e, tr') => (inl e, tr')
    | (inr a, tr') => k a tr'
    end.

(** A pure step that may raise. *)
Definition lift {A : Type} (x : Exc A) : M A := fun tr => (x, tr).

(** An invocation of a collaborator: recorded, whether it raises or not. *)
Definition invoke {A : Type} (c : Call) (x : Exc A) : M A :=
  fun tr => (x, tr ++ [c]).

(** [try: body / except Exception as e: handler e] *)
Definition try_except {A : Type} (body : M A) (handler : PyExc -> M A) : M A :=
  fun tr =>
    match body tr with
    | (inl e, tr') => handler e tr'
    | (inr a, tr') => (inr a, tr')
    end.

Declare Scope py_scope.
Delimit Scope py_scope with py.
Notation "x <- m ;; k" := (bind m (fun x => k))
  (at level 100, m at next level, right associativity) : py_scope.

(** [for x in xs: st = body st x], stopping at the first exception. *)
Fixpoint for_each {A S : Type} (body : S -> A -> M S) (xs : list A) (st : S) : M S :=
  match xs with
  | [] => ret st
  | x :: xs' => bind (body st x) (for_each body xs')
  end.

(** ** Results *)

Record Segment := mkSegment {
  speaker_label : string;
  start_time : float;
  end_time : float;
  duration : float;
  confidence : float;
  embedding : list float
}.

Record DiarizationResult := mkResult {
  success : bool;
  segments : list Segment;
  num_speakers : option nat;
  total_duration : option float;
  sample_rate : option Z;
  error : option string
}.

(** The dictionary of the [except] branch: the keys [success], [error] and
    [segments] only. *)
Definition failure (e : PyExc) : DiarizationResult :=
  mkResult false [] None None None (Some (str e)).

(** The segments and the result of [process_audio_chunk]: no [duration]
    key in a segment; [chunk_index] instead of [num_speakers],
    [total_duration] and [sample_rate] in the result. *)
Record ChunkSegment := mkChunkSegment {
  chunk_speaker_label : string;
  chunk_start_time : float;
  chunk_end_time : float;
  chunk_confidence : float;
  chunk_embedding : list float
}.

Record ChunkResult := mkChunkResult {
  chunk_success : bool;
  chunk_index : option Z;
  chunk_segments : list ChunkSegment;
  chunk_error : option string
}.

Definition chunk_failure (e : PyExc) : ChunkResult :=
  mkChunkResult false None [] (Some (str e)).

(** ** DiarizationEngine *)

Section Engine.

Variable self : Models.

(** Line 190: [int(0.5 * sample_rate)]. *)
Definition min_samples (sample_rate : Z) : Exc Z :=
  match float_of_int sample_rate with
  | inl e => inl e
  | inr rate => int_of_float (mul half rate)
  end.

(** Lines 191-194: pad on the right when the waveform is too short. *)
Definition ensure_min_length (waveform : Tensor) (min_samples : Z) : Tensor :=
  if shape1 waveform <? min_samples
  then pad_right waveform (Z.to_nat (min_samples - shape1 waveform))
  else waveform.

(** [_extract_embedding], lines 177-204. *)
Definition _extract_embedding (waveform : Tensor) (sample_rate : Z)
  : M (option (list float)) :=
  try_except
    (min_samples <- lift (min_samples sample_rate) ;;
     let waveform := ensure_min_length waveform min_samples in
     embedding <- invoke (CallEmbedding waveform) (embedding_model self waveform) ;;
     ret (Some embedding))%py
    (fun _ => ret None).

(** Lines 118-120: fold to mono when there is more than one channel. *)
Definition to_mono (waveform : Tensor) : Tensor :=
  if 1 <? shape0 waveform then torch_mean_dim0 self waveform else waveform.

(** Lines 110-120: load, resample when the rates differ, fold to mono. *)
Definition normalize (audio_path : string) (sample_rate : Z) : M Tensor :=
  (loaded <- invoke (CallLoad audio_path) (torchaudio_load self audio_path) ;;
   let '(waveform, sr) := loaded in
   waveform <-
     (if negb (sr =? sample_rate)
      then invoke (CallResample sr sample_rate waveform)
                  (resample self sr sample_rate waveform)
      else ret waveform) ;;
   ret (to_mono waveform))%py.

(** Lines 136-138: the label of a speaker token seen for the first time. *)
Definition assign_label (st : gmap string string * nat) (spk : string)
  : gmap string string * nat :=
  let '(speaker_labels, speaker_counter) := st in
  match speaker_labels !! spk with
  | None => (<[spk := "Speaker " +:+ pretty speaker_counter]> speaker_labels,
             S speaker_counter)
  | Some _ => (speaker_labels, speaker_counter)
  end.

(** Line 146: the two bounds of the slice, [int(turn.start * sample_rate)]
    then [int(turn.end * sample_rate)]. *)
Definition segment_bounds (sample_rate : Z) (turn : Turn) : Exc (Z * Z) :=
  match float_of_int sample_rate with
  | inl e => inl e
  | inr rate =>
      match int_of_float (mul (turn_start turn) rate) with
      | inl e => inl e
      | inr a =>
          match int_of_float (mul (turn_end turn) rate) with
          | inl e => inl e
          | inr b => inr (a, b)
          end
      end
  end.

(** [speaker_labels[speaker]] *)
Definition getitem (speaker_labels : gmap string string) (spk : string)
  : Exc string :=
  match speaker_labels !! spk with
  | Some l => inr l
  | None => inl (mkExc "KeyError" ("'" +:+ spk +:+ "'"))
  end.

(** The state of the loop of [process_audio]: [segments],
    [speaker_labels] and [speaker_counter]. *)
Definition LoopState : Type := (list Segment * (gmap string string * nat))%type.

(** Lines 134-156: one iteration. *)
Definition loop_body (waveform : Tensor) (sample_rate : Z)
    (min_segment_duration : float) (st : LoopState) (turn : Turn) : M LoopState :=
  let '(segs, labels) := st in
  let labels := assign_label labels (speaker turn) in
  let dur := sub (turn_end turn) (turn_start turn) in
  if ltb dur min_segment_duration then ret (segs, labels)
  else
    (bounds <- lift (segment_bounds sample_rate turn) ;;
     let '(a, b) := bounds in
     emb <- _extract_embedding (slice_cols waveform a b) sample_rate ;;
     label <- lift (getitem (fst labels) (speaker turn)) ;;
     ret (segs ++ [mkSegment label (turn_start turn) (turn_end turn) dur one
                     (match emb with Some v => v | None => [] end)],
          labels))%py.

(** Lines 108-167: the body of the [try]. *)
Definition process_audio_body (audio_path : string) (sample_rate : Z)
    (min_speakers max_speakers : option Z) (min_segment_duration : float)
  : M DiarizationResult :=
  (waveform <- normalize audio_path sample_rate ;;
   diarization <- invoke (CallPipeline waveform sample_rate min_speakers max_speakers)
                    (pipeline self waveform sample_rate min_speakers max_speakers) ;;
   st <- for_each (loop_body waveform sample_rate min_segment_duration)
           diarization ([], (∅, 1%nat)) ;;
   total <- lift (true_div (shape1 waveform) sample_rate) ;;
   ret (mkResult true (fst st) (Some (size (fst (snd st)))) (Some total)
          (Some sample_rate) None))%py.

(** [process_audio], lines 86-175. *)
Definition process_audio (audio_path : string) (sample_rate : Z)
    (min_speakers max_speakers : option Z) (min_segment_duration : float)
  : M DiarizationResult :=
  try_except
    (process_audio_body audio_path sample_rate min_speakers max_speakers
       min_segment_duration)
    (fun e => ret (failure e)).

(** ** The chunk path *)

(** Lines 237-249: one iteration of the loop of [process_audio_chunk]. *)
Definition chunk_loop_body (waveform : Tensor) (sample_rate : Z)
    (segs : list ChunkSegment) (turn : Turn) : M (list ChunkSegment) :=
  (bounds <- lift (segment_bounds sample_rate turn) ;;
   let '(a, b) := bounds in
   emb <- _extract_embedding (slice_cols waveform a b) sample_rate ;;
   ret (segs ++ [mkChunkSegment (speaker turn) (turn_start turn) (turn_end turn) one
                   (match emb with Some v => v | None => [] end)]))%py.

(** Lines 228-255: the body of the [try]. [audio_data] is a
    one-dimensional array of samples. *)
Definition process_audio_chunk_body (audio_data : list sample) (sample_rate : Z)
    (chunk_index : Z) : M ChunkResult :=
  (let waveform := unsqueeze0 audio_data in
   diarization <- invoke (CallPipeline waveform sample_rate None None)
                    (pipeline self waveform sample_rate None None) ;;
   segs <- for_each (chunk_loop_body waveform sample_rate) diarization [] ;;
   ret (mkChunkResult true (Some chunk_index) segs None))%py.

(** [process_audio_chunk], lines 206-263. *)
Definition process_audio_chunk (audio_data : list sample) (sample_rate : Z)
    (chunk_index : Z) : M ChunkResult :=
  try_except
    (process_audio_chunk_body audio_data sample_rate chunk_index)
    (fun e => ret (chunk_failure e)).

End Engine.

(** ** Vocabulary of the statements *)

(** The turns the duration filter of line 142 keeps. *)
Definition survives (min_segment_duration : float) (turn : Turn) : bool :=
  negb (ltb (sub (turn_end turn) (turn_start turn)) min_segment_duration).

(** The waveforms the embedding model was invoked on, oldest first. *)
Definition embedding_inputs (tr : list Call) : list Tensor :=
  omap (fun c => match c with CallEmbedding w => Some w | _ => None end) tr.

(** The invocations of the diarization pipeline, oldest first. *)
Definition pipeline_calls (tr : list Call)
  : list (Tensor * Z * option Z * option Z) :=
  omap (fun c => match c with
                 | CallPipeline w r mn mx => Some (w, r, mn, mx)
                 | _ => None
                 end) tr.

(** The files loaded, oldest first. *)
Definition load_calls (tr : list Call) : list string :=
  omap (fun c => match c with CallLoad p => Some p | _ => None end) tr.

(** The resamplings, oldest first. *)
Definition resample_calls (tr : list Call) : list (Z * Z * Tensor) :=
  omap (fun c => match c with
                 | CallResample f t w => Some (f, t, w)
                 | _ => None
                 end) tr.

(** The rate of a buffer loaded at rate [native] after the resamplings of a
    trace: [Resample(orig_freq, new_freq)] yields a buffer at [new_freq]. *)
Definition rate_after (native : Z) (tr : list Call) : Z :=
  fold_left (fun r '(_, new_freq, _) => new_freq) (resample_calls tr) native.

(** A decoded buffer with no channel or no sample. *)
Definition degenerate (w : Tensor) : Prop := t_rows w = [] \/ t_cols w = 0%nat.

(** [round(x)]: the nearest integer, ties to even. Used only to state the
    slice bounds the way the specification words them. *)
Definition spec_round (x : float) : Exc Z :=
  match x with
  | S754_zero _ => inr 0
  | S754_finite s m e =>
      inr (cond_Zopp s
             match e with
             | Zneg p =>
                 let q := Z.shiftr (Zpos m) (Zpos p) in
                 let r := Zpos m - Z.shiftl q (Zpos p) in
                 match (2 * r) ?= Z.shiftl 1 (Zpos p) with
                 | Lt => q
                 | Gt => q + 1
                 | Eq => if Z.even q then q else q + 1
                 end
             | _ => Z.shiftl (Zpos m) e
             end)
  | S754_nan =>
      inl (mkExc "ValueError" "cannot convert float NaN to integer")
  | S754_infinity _ =>
      inl (mkExc "OverflowError" "cannot convert float infinity to integer")
  end.

(** The bounds [round(start*sample_rate)] and [round(end*sample_rate)] of
    the specification. *)
Definition spec_segment_bounds (sample_rate : Z) (turn : Turn) : Exc (Z * Z) :=
  match float_of_int sample_rate with
  | inl e => inl e
  | inr rate =>
      match spec_round (mul (turn_start turn) rate) with
      | inl e => inl e
      | inr a =>
          match spec_round (mul (turn_end turn) rate) with
          | inl e => inl e
          | inr b => inr (a, b)
          end
      end
  end.

(** The invariant of the label map: the counter is one more than the number
    of labels, and the labelled tokens are the tokens seen. *)
Definition labels_inv (seen : list string) (st : gmap string string * nat) : Prop :=
  dom st.1 = list_to_set seen /\ st.2 = S (size st.1).

(** The labels of a map are numbered: the counter is one more than the
    number of labels, every label is ["Speaker k"] for a [k] below the
    counter, and no label is given to two tokens. *)
Definition labels_numbered (st : gmap string string * nat) : Prop :=
  st.2 = S (size st.1)
  /\ (forall s l, st.1 !! s = Some l ->
                 exists k, (1 <= k < st.2)%nat /\ l = "Speaker " +:+ pretty k)
  /\ (forall s1 s2 l, st.1 !! s1 = Some l -> st.1 !! s2 = Some l -> s1 = s2).

Section Runs.

Variable self : Models.

(** Lines 114-116 without the trace: the waveform after the conditional
    resampling. *)
Definition resampled (waveform : Tensor) (sr sample_rate : Z) : Exc Tensor :=
  if negb (sr =? sample_rate) then resample self sr sample_rate waveform
  else inr waveform.

(** What [_extract_embedding] returns, and the invocations it makes. *)
Definition extract_value (waveform : Tensor) (sample_rate : Z)
  : option (list float) :=
  match min_samples sample_rate with
  | inl _ => None
  | inr k =>
      match embedding_model self (ensure_min_length waveform k) with
      | inl _ => None
      | inr v => Some v
      end
  end.

Definition extract_calls (waveform : Tensor) (sample_rate : Z) : list Call :=
  match min_samples sample_rate with
  | inl _ => []
  | inr k => [CallEmbedding (ensure_min_length waveform k)]
  end.

(** The slice of line 146 for a turn whose bounds convert. *)
Definition segment_waveform (waveform : Tensor) (sample_rate : Z) (turn : Turn)
  : Tensor :=
  match segment_bounds sample_rate turn with
  | inr (a, b) => slice_cols waveform a b
  | inl _ => waveform
  end.

(** The label map and the counter after the turns of a call. *)
Definition labels_after (turns : list Turn) : gmap string string * nat :=
  fold_left assign_label (speaker <$> turns) (∅, 1%nat).

(** The dictionary of lines 149-156 for a turn, with the label read in a
    given map. *)
Definition segment_of (labels : gmap string string) (waveform : Tensor)
    (sample_rate : Z) (turn : Turn) : Segment :=
  mkSegment (default "" (labels !! speaker turn))
    (turn_start turn) (turn_end turn)
    (sub (turn_end turn) (turn_start turn)) one
    (match extract_value (segment_waveform waveform sample_rate turn) sample_rate with
     | Some v => v
     | None => []
     end).

Definition chunk_segment_of (waveform : Tensor) (sample_rate : Z) (turn : Turn)
  : ChunkSegment :=
  mkChunkSegment (speaker turn) (turn_start turn) (turn_end turn) one
    (match extract_value (segment_waveform waveform sample_rate turn) sample_rate with
     | Some v => v
     | None => []
     end).

(** A call in which loading, resampling and the diarization model return,
    the bounds of every kept turn convert to integers, and the total
    duration is computed: [w0] at rate [sr0] is the decoded buffer, [w] the
    normalized one, [turns] what the model yields. *)
Record runs_through (audio_path : string) (sample_rate : Z)
    (min_speakers max_speakers : option Z) (min_segment_duration : float)
    (w0 : Tensor) (sr0 : Z) (w : Tensor) (turns : list Turn) (total : float)
  : Prop := {
  rt_load : torchaudio_load self audio_path = inr (w0, sr0);
  rt_resample : exists w1, resampled w0 sr0 sample_rate = inr w1 /\ w = to_mono self w1;
  rt_pipeline : pipeline self w sample_rate min_speakers max_speakers = inr turns;
  rt_bounds : Forall (fun t => survives min_segment_duration t = true ->
                               exists ab, segment_bounds sample_rate t = inr ab) turns;
  rt_total : true_div (shape1 w) sample_rate = inr total
}.

(** An exception raised while loading, resampling, invoking the
    diarization model or slicing. *)
Inductive raises_during (audio_path : string) (sample_rate : Z)
    (min_speakers max_speakers : option Z) (min_segment_duration : float)
  : PyExc -> Prop :=
| raises_loading e :
    torchaudio_load self audio_path = inl e ->
    raises_during audio_path sample_rate min_speakers max_speakers
      min_segment_duration e
| raises_resampling w0 sr0 e :
    torchaudio_load self audio_path = inr (w0, sr0) ->
    resampled w0 sr0 sample_rate = inl e ->
    raises_during audio_path sample_rate min_speakers max_speakers
      min_segment_duration e
| raises_model w0 sr0 w1 e :
    torchaudio_load self audio_path = inr (w0, sr0) ->
    resampled w0 sr0 sample_rate = inr w1 ->
    pipeline self (to_mono self w1) sample_rate min_speakers max_speakers = inl e ->
    raises_during audio_path sample_rate min_speakers max_speakers
      min_segment_duration e
| raises_slicing w0 sr0 w1 before turn after e :
    torchaudio_load self audio_path = inr (w0, sr0) ->
    resampled w0 sr0 sample_rate = inr w1 ->
    pipeline self (to_mono self w1) sample_rate min_speakers max_speakers
      = inr (before ++ turn :: after) ->
    Forall (fun t => survives min_segment_duration t = true ->
                     exists ab, segment_bounds sample_rate t = inr ab) before ->
    survives min_segment_duration turn = true ->
    segment_bounds sample_rate turn = inl e ->
    raises_during audio_path sample_rate min_speakers max_speakers
      min_segment_duration e.

End Runs.

(** The events of the embedding extractor on some waveforms. *)
Definition extractions (sr : Z) (evs : list Call) : Prop :=
  exists ws, evs = flat_map (fun w => extract_calls w sr) ws.

(** ** Construction of the engine and command line

    [Pipeline.from_pretrained], [PretrainedSpeakerEmbedding], [torch.device]
    and [torch.cuda.is_available] are collaborators too; the functions of
    torch and torchaudio that [process_audio] uses come with them. The
    parsed command line is a record; the JSON text that [main] prints is
    represented by the document it serializes. *)

Definition PipelineModel : Type :=
  Tensor -> Z -> option Z -> option Z -> Exc (list Turn).

Definition EmbeddingModel : Type := Tensor -> Exc (list float).

Record Hub := mkHub {
  cuda_is_available : bool;
  (** [torch.device(device)] *)
  torch_device : string -> Exc string;
  (** [Pipeline.from_pretrained(model_name, use_auth_token=..)], which may
      return [None] *)
  from_pretrained : string -> option string -> Exc (option PipelineModel);
  (** [pipeline.to(device)]: the pipeline, moved *)
  pipeline_to : PipelineModel -> string -> Exc PipelineModel;
  (** [PretrainedSpeakerEmbedding(embedding_model, device=..,
      use_auth_token=..)] *)
  speaker_embedding : string -> string -> option string -> Exc EmbeddingModel;
  hub_load : string -> Exc (Tensor * Z);
  hub_resample : Z -> Z -> Tensor -> Exc Tensor;
  hub_mean_dim0 : Tensor -> Tensor
}.

(** The arguments of the command line, after [parser.parse_args()]. *)
Record Args := mkArgs {
  arg_audio_path : string;
  arg_sample_rate : Z;
  arg_min_speakers : option Z;
  arg_max_speakers : option Z;
  arg_min_duration : float;
  arg_model : string;
  arg_auth_token : option string;
  arg_device : string
}.

Section Construction.

Variable hub : Hub.

(** [DiarizationEngine.__init__], lines 44-84: an exception of the [try] is
    raised again. In [self.pipeline.to(torch.device(device))] the attribute
    [to] is looked up before the argument is evaluated. *)
Definition __init__ (model_name embedding_model : string)
    (use_auth_token : option string) (device : string) : Exc Models :=
  match from_pretrained hub model_name use_auth_token with
  | inl e => inl e
  | inr None =>
      inl (mkExc "AttributeError" "'NoneType' object has no attribute 'to'")
  | inr (Some p) =>
      match torch_device hub device with
      | inl e => inl e
      | inr d =>
          match pipeline_to hub p d with
          | inl e => inl e
          | inr p' =>
              match torch_device hub device with
              | inl e => inl e
              | inr d' =>
                  match speaker_embedding hub embedding_model d' use_auth_token with
                  | inl e => inl e
                  | inr m =>
                      inr (mkModels (hub_load hub) (hub_resample hub)
                             (hub_mean_dim0 hub) p' m)
                  end
              end
          end
      end
  end.

(** Lines 280-284: the device. *)
Definition select_device (device : string) : string :=
  if String.eqb device "auto"
  then (if cuda_is_available hub then "cuda" else "cpu")
  else device.

(** [main], lines 266-303: the document printed on stdout, or the exception
    that ends the process. *)
Definition main (args : Args) : Exc DiarizationResult :=
  match __init__ (arg_model args) "pyannote/embedding" (arg_auth_token args)
          (select_device (arg_device args)) with
  | inl e => inl e
  | inr engine =>
      fst (process_audio engine (arg_audio_path args) (arg_sample_rate args)
             (arg_min_speakers args) (arg_max_speakers args)
             (arg_min_duration args) [])
  end.

End Construction.

(** ** The scripts that test the fallback

    [test_fallback_system.py] and [test_quota_exhaustion.py]. A Python [str]
    is the list of its characters. The settings table is a list of rows, of
    which the scripts read and write the columns [id] and [geminiApiKey]
    ([None] for NULL). sqlite, [requests.post] and [subprocess.run] are
    collaborators: each use of the database either raises, before anything
    is committed, or is carried out, as a list of outcomes for the uses to
    come tells. What the scripts print is left out, except the two key
    previews. *)

Module Scripts.

Definition lit (s : string) : list ascii := list_ascii_of_string s.

(** [l[:b]] and [l[a:]] *)
Definition slice_to {A : Type} (l : list A) (b : Z) : list A := py_slice l 0 b.
Definition slice_from {A : Type} (l : list A) (a : Z) : list A :=
  py_slice l a (Z.of_nat (length l)).

(** [test_fallback_system.py], line 35:
    [api_key[:8] + "..." + api_key[-8:] if len(api_key) > 16 else "***"]. *)
Definition masked_key (api_key : list ascii) : list ascii :=
  if 16 <? Z.of_nat (length api_key)
  then slice_to api_key 8 ++ lit "..." ++ slice_from api_key (-8)
  else lit "***".

(** [test_quota_exhaustion.py], line 101:
    [f"{original_key[:8]}...{original_key[-8:]}"]. *)
Definition key_preview (original_key : list ascii) : list ascii :=
  slice_to original_key 8 ++ lit "..." ++ slice_from original_key (-8).

Record Row := mkRow { row_id : list ascii; row_key : option (list ascii) }.

Record World := mkWorld {
  table : list Row;
  (** the outcomes of the uses of the database to come; none when the list
      is exhausted *)
  faults : list (option PyExc);
  (** the URLs posted to, oldest first *)
  posted : list (list ascii)
}.

Definition Script (A : Type) : Type := World -> Exc A * World.

Definition sret {A : Type} (a : A) : Script A := fun w => (inr a, w).

Definition sbind {A B : Type} (m : Script A) (k : A -> Script B) : Script B :=
  fun w =>
    match m w with
    | (inl e, w') => (inl e, w')
    | (inr a, w') => k a w'
    end.

(** [connect], [execute], [commit] when there is something to commit,
    [close]. *)
Definition db_access {A : Type} (op : list Row -> A * list Row) : Script A :=
  fun w =>
    match faults w with
    | Some e :: fs => (inl e, mkWorld (table w) fs (posted w))
    | fs =>
        let '(a, t) := op (table w) in
        (inr a, mkWorld t (tl fs) (posted w))
    end.

(** The exceptions that [except Exception] catches. *)
Definition is_exception (e : PyExc) : bool :=
  negb (String.eqb (exc_class e) "KeyboardInterrupt"
        || String.eqb (exc_class e) "SystemExit"
        || String.eqb (exc_class e) "GeneratorExit").

(** [try: body / except Exception: handler] *)
Definition except_exception {A : Type} (body : Script A)
    (handler : PyExc -> Script A) : Script A :=
  fun w =>
    match body w with
    | (inl e, w') => if is_exception e then handler e w' else (inl e, w')
    | r => r
    end.

(** [try: body / finally: final] *)
Definition try_finally {A : Type} (body : Script A) (final : Script unit)
  : Script A :=
  fun w =>
    match body w with
    | (r, w') =>
        match final w' with
        | (inl e, w'') => (inl e, w'')
        | (inr _, w'') => (r, w'')
        end
    end.

(** The truth value of an optional [str]. *)
Definition truthy (s : option (list ascii)) : bool :=
  match s with
  | Some (_ :: _) => true
  | _ => false
  end.

Definition has_id_1 (r : Row) : bool := bool_decide (row_id r = lit "1").

(** [test_quota_exhaustion.backup_api_key], lines 15-22. *)
Definition backup_api_key : Script (option (list ascii)) :=
  db_access (fun t =>
    (match List.find has_id_1 t with
     | Some r => row_key r
     | None => None
     end, t)).

Definition set_key (k : option (list ascii)) (t : list Row) : list Row :=
  map (fun r => if has_id_1 r then mkRow (row_id r) k else r) t.

(** [test_quota_exhaustion.set_invalid_api_key], lines 24-32. *)
Definition set_invalid_api_key : Script unit :=
  db_access (fun t => (tt, set_key (Some (lit "INVALID_KEY_FOR_TESTING")) t)).

(** [test_quota_exhaustion.restore_api_key], lines 34-42. *)
Definition restore_api_key (original_key : option (list ascii)) : Script unit :=
  db_access (fun t => (tt, set_key original_key t)).

(** [s.lower()], on the letters A to Z. *)
Definition lower_char (c : ascii) : ascii :=
  let n := nat_of_ascii c in
  if ((65 <=? n) && (n <=? 90))%nat then ascii_of_nat (n + 32) else c.

Definition lower (s : list ascii) : list ascii := map lower_char s.

(** [needle in hay] *)
Fixpoint contains (needle hay : list ascii) : bool :=
  bool_decide (take (length needle) hay = needle)
  || match hay with
     | [] => false
     | _ :: hay' => contains needle hay'
     end.

(** What [subprocess.run(.., capture_output=True, text=True, timeout=30)]
    does: it returns the output and the return code, or raises. *)
Definition CurlOutcome : Type := Exc (list ascii * Z).

(** [test_quota_exhaustion.test_fallback_with_curl], lines 44-88. *)
Definition test_fallback_with_curl (curl : CurlOutcome) : Script bool :=
  except_exception
    (fun w =>
       match curl with
       | inl e => (inl e, w)
       | inr (stdout, returncode) =>
           (inr (contains (lit "error") (lower stdout) || negb (returncode =? 0)), w)
       end)
    (fun _ => sret false).

(** [try: body / except KeyboardInterrupt: pass / except Exception: pass],
    the handlers of lines 127-130, which only print. *)
Definition except_interrupt_or_exception (body : Script unit) : Script unit :=
  fun w =>
    match body w with
    | (inl e, w') =>
        if String.eqb (exc_class e) "KeyboardInterrupt" || is_exception e
        then (inr tt, w') else (inl e, w')
    | r => r
    end.

(** [test_quota_exhaustion.main], lines 90-134. *)
Definition quota_main (curl : CurlOutcome) : Script unit :=
  sbind backup_api_key (fun original_key =>
    if negb (truthy original_key) then sret tt
    else
      try_finally
        (except_interrupt_or_exception
           (sbind set_invalid_api_key
              (fun _ => sbind (test_fallback_with_curl curl) (fun _ => sret tt))))
        (restore_api_key original_key)).

(** The URL of [test_fallback_system.py], line 65. *)
Definition gemini_url (api_key : list ascii) : list ascii :=
  lit "https://generativelanguage.googleapis.com/v1beta/models/gemini-flash-latest:generateContent?key="
  ++ api_key.

(** [test_fallback_system.test_gemini_api_directly], lines 47-93; [post] is
    [requests.post(url, json=payload, timeout=30)], which gives the status
    code and the text of the response. *)
Definition test_gemini_api_directly (post : list ascii -> Exc (Z * list ascii))
  : Script bool :=
  except_exception
    (sbind (db_access (fun t => (match t with
                                 | r :: _ => Some (row_key r)
                                 | [] => None
                                 end, t)))
       (fun result =>
          match result with
          | Some (Some ((_ :: _) as api_key)) =>
              fun w =>
                match post (gemini_url api_key) with
                | inl e =>
                    (inl e, mkWorld (table w) (faults w)
                              (posted w ++ [gemini_url api_key]))
                | inr (status_code, _) =>
                    (inr (if status_code =? 200 then true
                          else if status_code =? 429 then false else false),
                     mkWorld (table w) (faults w)
                       (posted w ++ [gemini_url api_key]))
                end
          | _ => sret false
          end))
    (fun _ => sret false).

(** [test_fallback_system.check_current_config], lines 15-45: the first row
    of the settings, [None] when there is none or when an exception is
    caught. *)
Definition check_current_config : Script (option Row) :=
  except_exception
    (db_access (fun t => (match t with
                          | r :: _ => Some r
                          | [] => None
                          end, t)))
    (fun _ => sret None).

(** The file system and the environment, for [check_builtin_ai_setup]. *)
Record FileSystem := mkFileSystem {
  expanduser : list ascii -> list ascii;
  path_exists : list ascii -> bool;
  getsize : list ascii -> Exc Z;
  environ_get : list ascii -> option (list ascii)
}.

Definition llama_helper_path (fs : FileSystem) : list ascii :=
  expanduser fs
    (lit "~/code/githubrepos/meeting-minutes/target/release/llama-helper").

Definition model_path (fs : FileSystem) : list ascii :=
  expanduser fs
    (lit "~/.local/share/com.meetily.ai/models/summary/gemma-3-1b-it-Q8_0.gguf").

(** [test_fallback_system.check_builtin_ai_setup], lines 95-134. The size
    is read, and only printed. *)
Definition check_builtin_ai_setup (fs : FileSystem) : Script bool :=
  fun w =>
    if path_exists fs (llama_helper_path fs) then
      match getsize fs (llama_helper_path fs) with
      | inl e => (inl e, w)
      | inr _ =>
          if path_exists fs (model_path fs) then
            match getsize fs (model_path fs) with
            | inl e => (inl e, w)
            | inr _ =>
                match environ_get fs (lit "MEETILY_LLAMA_HELPER") with
                | Some _ => (inr true, w)
                | None => (inr true, w)
                end
            end
          else (inr false, w)
      end
    else (inr false, w).

(** [test_fallback_system.main], lines 136-177. *)
Definition fallback_main (post : list ascii -> Exc (Z * list ascii))
    (fs : FileSystem) : Script unit :=
  sbind check_current_config (fun config =>
    match config with
    | None => sret tt
    | Some _ =>
        sbind (test_gemini_api_directly post) (fun gemini_working =>
          sbind (check_builtin_ai_setup fs) (fun builtin_ready => sret tt))
    end).

End Scripts.

(** A settings table for the scenarios of the scripts. *)
Definition settings_demo : list Scripts.Row :=
  [Scripts.mkRow (Scripts.lit "1") (Some (Scripts.lit "AIzaSyD-0123456789-abcdefgh"));
   Scripts.mkRow (Scripts.lit "2") None].

(** ** Scenarios

    Concrete collaborators on which the engine is run: a ten-second mono
    clip at 16 kHz, a telephone recording at 8 kHz that has to be
    resampled, a file that decodes to no sample at all, and a path that
    does not exist. *)

Module Demo.

(** A mono buffer of [n] silent samples. *)
Definition clip (n : Z) : Tensor :=
  mkTensor [replicate (Z.to_nat n) (S754_zero false)] (Z.to_nat n).

(** The decimal literal [n/d]. *)
Definition dec (n d : Z) : float := of_quotient n d.

Definition not_found : PyExc :=
  mkExc "RuntimeError" "Failed to open the input (No such file or directory).".

Definition load (audio_path : string) : Exc (Tensor * Z) :=
  if String.eqb audio_path "meeting.wav" then inr (clip 160000, 16000)
  else if String.eqb audio_path "phone.wav" then inr (clip 80000, 8000)
  else if String.eqb audio_path "empty.wav" then inr (clip 0, 16000)
  else inl not_found.

Definition resample (orig_freq new_freq : Z) (w : Tensor) : Exc Tensor :=
  if orig_freq =? 0 then inl (mkExc "ZeroDivisionError" "division by zero")
  else inr (clip (shape1 w * new_freq / orig_freq)).

Definition mean_dim0 (w : Tensor) : Tensor := clip (shape1 w).

Definition out_of_memory : PyExc := mkExc "RuntimeError" "CUDA out of memory.".

(** An embedding model that fails on four-second inputs. *)
Definition embed (w : Tensor) : Exc (list float) :=
  if shape1 w =? 64000 then inl out_of_memory else inr [of_Z (shape1 w)].

Definition models (diarize : Tensor -> Exc (list Turn)) : Models :=
  mkModels load resample mean_dim0 (fun w _ _ _ => diarize w) embed.

(** Two speakers one after the other, a micro-turn of a third one, and a
    turn of exactly one second. *)
Definition turn_a : Turn := mkTurn (of_Z 0) (of_Z 6) "SPEAKER_01".
Definition turn_b : Turn := mkTurn (of_Z 6) (of_Z 10) "SPEAKER_00".
Definition turn_c : Turn := mkTurn (dec 95 10) (dec 98 10) "SPEAKER_02".
Definition turn_d : Turn := mkTurn (of_Z 2) (of_Z 3) "SPEAKER_00".
Definition turns : list Turn := [turn_a; turn_b; turn_c; turn_d].

Definition empty_waveform : PyExc := mkExc "ValueError" "empty waveform".

(** A diarization model that refuses an empty buffer. *)
Definition engine : Models :=
  models (fun w => if shape1 w =? 0 then inl empty_waveform else inr turns).

(** A diarization model that finds no turn in an empty buffer. *)
Definition lenient : Models :=
  models (fun w => if shape1 w =? 0 then inr [] else inr turns).

(** A turn that ends between two samples: 1.00005 s is sample 16000.8. *)
Definition turn_f : Turn := mkTurn (of_Z 0) (dec 100005 100000) "SPEAKER_00".
Definition fractional : Models := models (fun _ => inr [turn_f]).

End Demo.

(** ** Facts about the engine *)

Ltac run_py := unfold bind, lift, invoke, ret, try_except; simpl.

Section Facts.

Variable self : Models.

(** *** The embedding extractor *)

Lemma extract_embedding_run (w : Tensor) (sr : Z) (tr : list Call) :
  _extract_embedding self w sr tr
  = (inr (extract_value self w sr), tr ++ extract_calls w sr).
Proof.
  unfold _extract_embedding, extract_value, extract_calls.
  run_py.
  destruct (min_samples sr) as [e|k]; simpl.
  - by rewrite app_nil_r.
  - by destruct (embedding_model self (ensure_min_length w k)).
Qed.

(** *** The label map *)

Lemma assign_label_lookup (st : gmap string string * nat) (s : string) :
  exists l, (assign_label st s).1 !! s = Some l.
Proof.
  destruct st as [labels counter]. unfold assign_label.
  destruct (labels !! s) as [l|] eqn:Hs; simpl.
  - by exists l.
  - eexists. apply lookup_insert_eq.
Qed.

Lemma assign_label_keeps (st : gmap string string * nat) (s s' l : string) :
  st.1 !! s = Some l -> (assign_label st s').1 !! s = Some l.
Proof.
  destruct st as [labels counter]. unfold assign_label. simpl. intros Hs.
  destruct (labels !! s') as [l'|] eqn:Hs'; simpl; [done|].
  rewrite lookup_insert_ne; [done|]. intros ->. congruence.
Qed.

Lemma fold_assign_label_keeps (spks : list string) :
  forall (st : gmap string string * nat) (s l : string),
    st.1 !! s = Some l -> (fold_left assign_label spks st).1 !! s = Some l.
Proof.
  induction spks as [|s' spks IH]; intros st s l Hs; simpl; [done|].
  apply IH. by apply assign_label_keeps.
Qed.

Lemma labels_inv_step (seen : list string) (st : gmap string string * nat)
    (s : string) :
  labels_inv seen st -> labels_inv (seen ++ [s]) (assign_label st s).
Proof.
  destruct st as [labels counter]. unfold labels_inv, assign_label. simpl.
  intros [Hdom Hc]. rewrite list_to_set_app_L. simpl.
  destruct (labels !! s) as [l|] eqn:Hs; simpl.
  - split; [|done].
    assert (s ∈ dom labels) as Hin by (apply elem_of_dom; eauto).
    rewrite <- Hdom, union_empty_r_L. apply set_eq. intros x.
    rewrite elem_of_union, elem_of_singleton. split; [auto|].
    by intros [?| ->].
  - split.
    + rewrite dom_insert_L, Hdom, union_empty_r_L. apply union_comm_L.
    + rewrite map_size_insert_None; [|done]. by rewrite Hc.
Qed.

Lemma labels_inv_fold (spks : list string) :
  forall (seen : list string) (st : gmap string string * nat),
    labels_inv seen st ->
    labels_inv (seen ++ spks) (fold_left assign_label spks st).
Proof.
  induction spks as [|s spks IH]; intros seen st Hinv; simpl.
  - by rewrite app_nil_r.
  - replace (seen ++ s :: spks) with ((seen ++ [s]) ++ spks)
      by (by rewrite <- app_assoc).
    apply IH. by apply labels_inv_step.
Qed.

Lemma labels_inv_init : labels_inv [] (∅, 1%nat).
Proof. split; simpl; [apply dom_empty_L | by rewrite map_size_empty]. Qed.

Lemma labels_after_dom (turns : list Turn) :
  dom (labels_after turns).1 = list_to_set (speaker <$> turns).
Proof.
  unfold labels_after.
  destruct (labels_inv_fold (speaker <$> turns) [] _ labels_inv_init) as [H _].
  exact H.
Qed.

Lemma labels_after_size (turns : list Turn) :
  size (labels_after turns).1
  = size (list_to_set (speaker <$> turns) : gset string).
Proof. by rewrite <- labels_after_dom, size_dom. Qed.

(** The token that appears first after [before] gets the next number. *)
Lemma labels_after_first (before : list Turn) (turn : Turn) (after : list Turn) :
  speaker turn ∉ speaker <$> before ->
  (labels_after (before ++ turn :: after)).1 !! speaker turn
  = Some ("Speaker " +:+ pretty (S (size (list_to_set (speaker <$> before) : gset string)))).
Proof.
  intros Hnew. unfold labels_after.
  rewrite fmap_app, fold_left_app. simpl.
  apply fold_assign_label_keeps.
  destruct (labels_inv_fold (speaker <$> before) [] _ labels_inv_init)
    as [Hdom Hc]. simpl in Hdom.
  destruct (fold_left assign_label (speaker <$> before) (∅, 1%nat))
    as [labels counter] eqn:Hfold. simpl in *.
  assert (labels !! speaker turn = None) as Hnone.
  { apply not_elem_of_dom. rewrite Hdom. by rewrite elem_of_list_to_set. }
  rewrite Hnone. simpl. rewrite lookup_insert_eq.
  by rewrite Hc, <- size_dom, Hdom.
Qed.

(** *** The loop of [process_audio] *)

Lemma for_each_cons {A S : Type} (body : S -> A -> M S) (x : A) (xs : list A)
    (st : S) (tr : list Call) :
  for_each body (x :: xs) st tr
  = match body st x tr with
    | (inl e, tr') => (inl e, tr')
    | (inr st', tr') => for_each body xs st' tr'
    end.
Proof. reflexivity. Qed.

Lemma loop_body_short (w : Tensor) (sr : Z) (md : float) (segs : list Segment)
    (st : gmap string string * nat) (t : Turn) (tr : list Call) :
  survives md t = false ->
  loop_body self w sr md (segs, st) t tr
  = (inr (segs, assign_label st (speaker t)), tr).
Proof.
  unfold survives, loop_body. intros Hs. apply negb_false_iff in Hs.
  by rewrite Hs.
Qed.

Lemma loop_body_raises (w : Tensor) (sr : Z) (md : float) (segs : list Segment)
    (st : gmap string string * nat) (t : Turn) (tr : list Call) (e : PyExc) :
  survives md t = true ->
  segment_bounds sr t = inl e ->
  loop_body self w sr md (segs, st) t tr = (inl e, tr).
Proof.
  unfold survives, loop_body. intros Hs He. apply negb_true_iff in Hs.
  rewrite Hs. run_py. by rewrite He.
Qed.

Lemma loop_body_kept (w : Tensor) (sr : Z) (md : float) (segs : list Segment)
    (st : gmap string string * nat) (t : Turn) (tr : list Call) (ab : Z * Z) :
  survives md t = true ->
  segment_bounds sr t = inr ab ->
  loop_body self w sr md (segs, st) t tr
  = (inr (segs ++ [segment_of self (assign_label st (speaker t)).1 w sr t],
          assign_label st (speaker t)),
     tr ++ extract_calls (segment_waveform w sr t) sr).
Proof.
  unfold survives, loop_body. intros Hs Hab. apply negb_true_iff in Hs.
  rewrite Hs. unfold bind at 1, lift at 1. rewrite Hab. destruct ab as [a b].
  unfold bind at 1. rewrite extract_embedding_run.
  destruct (assign_label_lookup st (speaker t)) as [l Hl].
  unfold bind, lift, getitem, ret. rewrite Hl.
  unfold segment_of, segment_waveform. by rewrite Hab, Hl.
Qed.

Lemma loop_run (w : Tensor) (sr : Z) (md : float) (turns : list Turn) :
  forall (segs : list Segment) (st : gmap string string * nat) (tr : list Call),
    Forall (fun t => survives md t = true ->
                     exists ab, segment_bounds sr t = inr ab) turns ->
    for_each (loop_body self w sr md) turns (segs, st) tr
    = (inr (segs ++ map (segment_of self
                           (fold_left assign_label (speaker <$> turns) st).1 w sr)
                      (List.filter (survives md) turns),
            fold_left assign_label (speaker <$> turns) st),
       tr ++ flat_map (fun t => extract_calls (segment_waveform w sr t) sr)
               (List.filter (survives md) turns)).
Proof.
  induction turns as [|t turns IH]; intros segs st tr Hb.
  - simpl. unfold ret. by rewrite !app_nil_r.
  - apply Forall_cons in Hb as [Ht Hb]. rewrite for_each_cons.
    rewrite fmap_cons. cbn [fold_left List.filter].
    destruct (survives md t) eqn:Hs.
    + destruct (Ht eq_refl) as [ab Hab].
      rewrite (loop_body_kept _ _ _ _ _ _ _ _ Hs Hab), IH by done.
      rewrite <- !app_assoc. cbn [map flat_map app].
      do 3 f_equal. unfold segment_of.
      destruct (assign_label_lookup st (speaker t)) as [l Hl].
      by rewrite Hl, (fold_assign_label_keeps _ _ _ _ Hl).
    + by rewrite (loop_body_short _ _ _ _ _ _ _ Hs), IH.
Qed.

(** *** Loading and normalizing *)

Lemma normalize_run (audio_path : string) (sr : Z) (tr : list Call)
    (w0 : Tensor) (sr0 : Z) :
  torchaudio_load self audio_path = inr (w0, sr0) ->
  normalize self audio_path sr tr
  = (match resampled self w0 sr0 sr with
     | inl e => inl e
     | inr w1 => inr (to_mono self w1)
     end,
     tr ++ CallLoad audio_path
        :: (if negb (sr0 =? sr) then [CallResample sr0 sr w0] else [])).
Proof.
  intros Hload. unfold normalize, resampled. run_py. rewrite Hload.
  destruct (negb (sr0 =? sr)); simpl.
  - rewrite <- app_assoc. simpl.
    by destruct (resample self sr0 sr w0).
  - done.
Qed.

(** *** A call that runs through *)

Lemma process_audio_run (audio_path : string) (sr : Z) (mn mx : option Z)
    (md : float) (w0 : Tensor) (sr0 : Z) (w : Tensor) (turns : list Turn)
    (total : float) (tr : list Call) :
  runs_through self audio_path sr mn mx md w0 sr0 w turns total ->
  process_audio self audio_path sr mn mx md tr
  = (inr (mkResult true
            (map (segment_of self (labels_after turns).1 w sr)
               (List.filter (survives md) turns))
            (Some (size (labels_after turns).1)) (Some total) (Some sr) None),
     tr ++ CallLoad audio_path
        :: (if negb (sr0 =? sr) then [CallResample sr0 sr w0] else [])
        ++ CallPipeline w sr mn mx
        :: flat_map (fun t => extract_calls (segment_waveform w sr t) sr)
             (List.filter (survives md) turns)).
Proof.
  intros [Hload (w1 & Hres & ->) Hpipe Hb Htotal].
  unfold process_audio, process_audio_body, try_except, bind at 1 2 3 4.
  rewrite (normalize_run _ _ _ _ _ Hload), Hres.
  unfold invoke at 1. rewrite Hpipe, loop_run by done.
  unfold lift. rewrite Htotal. unfold ret. simpl.
  unfold labels_after. by rewrite <- !app_assoc.
Qed.

(** *** A call whose body raises *)

Lemma process_audio_body_raises (audio_path : string) (sr : Z)
    (mn mx : option Z) (md : float) (tr : list Call) (e : PyExc)
    (tr' : list Call) :
  process_audio_body self audio_path sr mn mx md tr = (inl e, tr') ->
  process_audio self audio_path sr mn mx md tr = (inr (failure e), tr').
Proof. intros Hbody. unfold process_audio, try_except. by rewrite Hbody. Qed.

Lemma process_audio_total (audio_path : string) (sr : Z) (mn mx : option Z)
    (md : float) (tr : list Call) :
  exists r tr', process_audio self audio_path sr mn mx md tr = (inr r, tr').
Proof.
  unfold process_audio, try_except.
  destruct (process_audio_body self audio_path sr mn mx md tr) as [[e|r] tr'];
    unfold ret; eauto.
Qed.

(** The loop raises at the first kept turn whose bounds do not convert. *)
Lemma loop_raises (w : Tensor) (sr : Z) (md : float) (before : list Turn)
    (turn : Turn) (after : list Turn) (e : PyExc) :
  forall (segs : list Segment) (st : gmap string string * nat) (tr : list Call),
    Forall (fun t => survives md t = true ->
                     exists ab, segment_bounds sr t = inr ab) before ->
    survives md turn = true ->
    segment_bounds sr turn = inl e ->
    exists tr',
      for_each (loop_body self w sr md) (before ++ turn :: after) (segs, st) tr
      = (inl e, tr').
Proof.
  induction before as [|t before IH]; intros segs st tr Hb Hs He;
    cbn [app]; rewrite for_each_cons.
  - rewrite (loop_body_raises _ _ _ _ _ _ _ _ Hs He). eauto.
  - apply Forall_cons in Hb as [Ht Hb].
    destruct (survives md t) eqn:Hst.
    + destruct (Ht eq_refl) as [ab Hab].
      rewrite (loop_body_kept _ _ _ _ _ _ _ _ Hst Hab). by apply IH.
    + rewrite (loop_body_short _ _ _ _ _ _ _ Hst). by apply IH.
Qed.

Lemma process_audio_body_raises_during (audio_path : string) (sr : Z)
    (mn mx : option Z) (md : float) (e : PyExc) (tr : list Call) :
  raises_during self audio_path sr mn mx md e ->
  exists tr', process_audio_body self audio_path sr mn mx md tr = (inl e, tr').
Proof.
  intros Hraise. unfold process_audio_body.
  destruct Hraise as [e Hload | w0 sr0 e Hload Hres | w0 sr0 w1 e Hload Hres Hpipe
                     | w0 sr0 w1 before turn after e Hload Hres Hpipe Hb Hs He].
  - unfold bind at 1 2 3 4, normalize, bind at 1, invoke at 1.
    rewrite Hload. eauto.
  - unfold bind at 1 2 3 4.
    rewrite (normalize_run _ _ _ _ _ Hload), Hres. eauto.
  - unfold bind at 1 2 3 4.
    rewrite (normalize_run _ _ _ _ _ Hload), Hres.
    unfold invoke at 1. rewrite Hpipe. eauto.
  - unfold bind at 1 2 3 4.
    rewrite (normalize_run _ _ _ _ _ Hload), Hres.
    unfold invoke at 1. rewrite Hpipe.
    destruct (loop_raises (to_mono self w1) sr md before turn after e []
                (∅, 1%nat) (* the state of lines 130-132 *)
                ((tr ++ CallLoad audio_path ::
                    (if negb (sr0 =? sr) then [CallResample sr0 sr w0] else []))
                 ++ [CallPipeline (to_mono self w1) sr mn mx])
                Hb Hs He) as [tr' Hloop].
    rewrite Hloop. eauto.
Qed.

(** *** The chunk path *)

Lemma chunk_loop_body_run (w : Tensor) (sr : Z) (segs : list ChunkSegment)
    (t : Turn) (tr : list Call) (ab : Z * Z) :
  segment_bounds sr t = inr ab ->
  chunk_loop_body self w sr segs t tr
  = (inr (segs ++ [chunk_segment_of self w sr t]),
     tr ++ extract_calls (segment_waveform w sr t) sr).
Proof.
  intros Hab. unfold chunk_loop_body, bind at 1, lift at 1. rewrite Hab.
  destruct ab as [a b]. unfold bind, ret. rewrite extract_embedding_run.
  unfold chunk_segment_of, segment_waveform. by rewrite Hab.
Qed.

Lemma chunk_loop_run (w : Tensor) (sr : Z) (turns : list Turn) :
  forall (segs : list ChunkSegment) (tr : list Call),
    Forall (fun t => exists ab, segment_bounds sr t = inr ab) turns ->
    for_each (chunk_loop_body self w sr) turns segs tr
    = (inr (segs ++ map (chunk_segment_of self w sr) turns),
       tr ++ flat_map (fun t => extract_calls (segment_waveform w sr t) sr) turns).
Proof.
  induction turns as [|t turns IH]; intros segs tr Hb.
  - simpl. unfold ret. by rewrite !app_nil_r.
  - apply Forall_cons in Hb as [[ab Hab] Hb]. rewrite for_each_cons.
    rewrite (chunk_loop_body_run _ _ _ _ _ _ Hab), IH by done.
    by rewrite <- !app_assoc.
Qed.

Lemma process_audio_chunk_run (audio_data : list sample) (sr index : Z)
    (turns : list Turn) (tr : list Call) :
  pipeline self (unsqueeze0 audio_data) sr None None = inr turns ->
  Forall (fun t => exists ab, segment_bounds sr t = inr ab) turns ->
  process_audio_chunk self audio_data sr index tr
  = (inr (mkChunkResult true (Some index)
            (map (chunk_segment_of self (unsqueeze0 audio_data) sr) turns) None),
     tr ++ CallPipeline (unsqueeze0 audio_data) sr None None
        :: flat_map (fun t => extract_calls
                                (segment_waveform (unsqueeze0 audio_data) sr t) sr)
             turns).
Proof.
  intros Hpipe Hb.
  unfold process_audio_chunk, process_audio_chunk_body, try_except, bind at 1 2.
  unfold invoke at 1. rewrite Hpipe, chunk_loop_run by done.
  unfold ret. simpl. by rewrite <- app_assoc.
Qed.

(** *** Slices *)

Lemma py_slice_in_range {A : Type} (l : list A) (a b : Z) :
  0 <= a <= b -> b <= Z.of_nat (length l) ->
  py_slice l a b = take (Z.to_nat (b - a)) (drop (Z.to_nat a) l).
Proof.
  intros Hab Hb. unfold py_slice, slice_index.
  destruct (Z.ltb_spec a 0), (Z.ltb_spec b 0); try lia.
  by rewrite !Z.min_l by lia.
Qed.

Lemma embedding_inputs_app (tr1 tr2 : list Call) :
  embedding_inputs (tr1 ++ tr2) = embedding_inputs tr1 ++ embedding_inputs tr2.
Proof. apply omap_app. Qed.

Lemma embedding_inputs_turns (w : Tensor) (sr k : Z) (turns : list Turn) :
  min_samples sr = inr k ->
  embedding_inputs
    (flat_map (fun t => extract_calls (segment_waveform w sr t) sr) turns)
  = map (fun t => ensure_min_length (segment_waveform w sr t) k) turns.
Proof.
  intros Hk. induction turns as [|t turns IH]; [done|].
  cbn [flat_map map]. rewrite embedding_inputs_app, IH.
  unfold extract_calls. by rewrite Hk.
Qed.

Lemma slice_cols_in_range (w : Tensor) (a b : Z) :
  0 <= a <= b -> b <= shape1 w ->
  Forall (fun row => length row = t_cols w) (t_rows w) ->
  slice_cols w a b
  = mkTensor (map (fun row => take (Z.to_nat (b - a)) (drop (Z.to_nat a) row))
                (t_rows w))
      (Z.to_nat (b - a)).
Proof.
  intros Hab Hb Hrows. unfold slice_cols, shape1 in *. f_equal.
  - apply map_ext_in. intros row Hrow.
    apply py_slice_in_range; [done|].
    rewrite Forall_forall in Hrows.
    rewrite (Hrows row); [done|]. by apply list_elem_of_In.
  - unfold slice_index.
    destruct (Z.ltb_spec a 0), (Z.ltb_spec b 0); lia.
Qed.

(** [int(x)] rounds toward zero. *)
Lemma int_of_float_truncates (s : bool) (m p : positive) :
  int_of_float (S754_finite s m (Zneg p))
  = inr (Z.quot (cond_Zopp s (Zpos m)) (2 ^ Zpos p)).
Proof.
  unfold int_of_float. f_equal.
  rewrite Z.shiftr_div_pow2 by lia.
  destruct s; unfold cond_Zopp.
  - rewrite Z.quot_opp_l by lia. f_equal. symmetry.
    apply Z.quot_div_nonneg; lia.
  - symmetry. apply Z.quot_div_nonneg; lia.
Qed.

(** The loop of the chunk path invokes nothing but the embedding model. *)
Lemma extract_calls_no_pipeline (w : Tensor) (sr : Z) :
  pipeline_calls (extract_calls w sr) = [].
Proof. unfold extract_calls. by destruct (min_samples sr). Qed.

Lemma chunk_loop_trace (w : Tensor) (sr : Z) (turns : list Turn) :
  forall (segs : list ChunkSegment) (tr : list Call),
  exists x evs,
    for_each (chunk_loop_body self w sr) turns segs tr = (x, tr ++ evs)
    /\ pipeline_calls evs = [].
Proof.
  induction turns as [|t turns IH]; intros segs tr.
  - exists (inr segs), []. by rewrite app_nil_r.
  - rewrite for_each_cons.
    destruct (segment_bounds sr t) as [e|ab] eqn:Hab.
    + exists (inl e), []. unfold chunk_loop_body, bind, lift.
      by rewrite Hab, app_nil_r.
    + rewrite (chunk_loop_body_run _ _ _ _ _ _ Hab).
      destruct (IH (segs ++ [chunk_segment_of self w sr t])
                  (tr ++ extract_calls (segment_waveform w sr t) sr))
        as (x & evs & -> & Hevs).
      exists x, (extract_calls (segment_waveform w sr t) sr ++ evs).
      rewrite <- app_assoc. split; [done|].
      unfold pipeline_calls in *.
      by rewrite omap_app, Hevs, (extract_calls_no_pipeline _ sr).
Qed.

End Facts.

(** ** The claims *)

Section Claims.

Variable self : Models.


(** C2. In the full-file path a turn whose duration is below
    [min_segment_duration] contributes no segment: its iteration leaves the
    segments as they are, after its speaker token has been entered in the
    label map. So the segments of a call are, in order, those of the turns
    the filter keeps, and [num_speakers] is the number of distinct tokens
    among all the turns, kept or not. *)
Theorem short_turns_dropped_but_counted (audio_path : string) (sample_rate : Z)
    (min_speakers max_speakers : option Z) (min_segment_duration : float)
    (w0 : Tensor) (sr0 : Z) (w : Tensor) (turns : list Turn) (total : float)
    (tr : list Call) :
  runs_through self audio_path sample_rate min_speakers max_speakers
    min_segment_duration w0 sr0 w turns total ->
  (forall segs labels counter t tr0,
      ltb (sub (turn_end t) (turn_start t)) min_segment_duration = true ->
      exists labels' counter',
        loop_body self w sample_rate min_segment_duration
          (segs, (labels, counter)) t tr0
        = (inr (segs, (labels', counter')), tr0)
        /\ is_Some (labels' !! speaker t))
  /\ exists r tr',
      process_audio self audio_path sample_rate min_speakers max_speakers
        min_segment_duration tr = (inr r, tr')
      /\ success r = true
      /\ Forall2 (fun seg t => start_time seg = turn_start t
                               /\ end_time seg = turn_end t
                               /\ ltb (duration seg) min_segment_duration = false)
           (segments r)
           (List.filter
              (fun t => negb (ltb (sub (turn_end t) (turn_start t))
                                min_segment_duration)) turns)
      /\ num_speakers r
         = Some (size (list_to_set (speaker <$> turns) : gset string)).
Proof.
  intros Hrun. split.
  { intros segs labels counter t tr0 Hshort.
    destruct (assign_label (labels, counter) (speaker t))
      as [labels' counter'] eqn:Hassign.
    exists labels', counter'. split.
    - rewrite loop_body_short, Hassign; [done|].
      unfold survives. by rewrite Hshort.
    - destruct (assign_label_lookup (labels, counter) (speaker t)) as [l Hl].
      rewrite Hassign in Hl. by exists l. }
  eexists _, _. split; [by apply process_audio_run|].
  cbn [success segments num_speakers]. split; [done|]. split.
  - apply Forall2_fmap_l, Forall_Forall2_diag, Forall_forall.
    intros t Ht. apply list_elem_of_In, filter_In in Ht as [_ Ht].
    apply negb_true_iff in Ht. by cbn.
  - by rewrite labels_after_size.
Qed.

(** C5. In one full-file call the display labels follow the order of first
    appearance of the speaker tokens: the segments of a token whose first
    turn comes after [n] distinct other tokens carry the label
    ["Speaker (n+1)"], whatever the tokens are; the numbering starts at 1
    in every call, whatever was invoked before. *)
Theorem labels_follow_first_appearance (audio_path : string) (sample_rate : Z)
    (min_speakers max_speakers : option Z) (min_segment_duration : float)
    (w0 : Tensor) (sr0 : Z) (w : Tensor) (turns : list Turn) (total : float)
    (tr : list Call) :
  runs_through self audio_path sample_rate min_speakers max_speakers
    min_segment_duration w0 sr0 w turns total ->
  exists r tr',
    process_audio self audio_path sample_rate min_speakers max_speakers
      min_segment_duration tr = (inr r, tr')
    /\ Forall2
         (fun seg t =>
            forall before first after,
              turns = before ++ first :: after ->
              speaker first = speaker t ->
              speaker first ∉ speaker <$> before ->
              speaker_label seg
              = "Speaker " +:+
                pretty (S (size (list_to_set (speaker <$> before) : gset string))))
         (segments r) (List.filter (survives min_segment_duration) turns).
Proof.
  intros Hrun. eexists _, _. split; [by apply process_audio_run|].
  cbn [segments].
  apply Forall2_fmap_l, Forall_Forall2_diag, Forall_forall.
  intros t _ before first after -> Hsame Hnew. cbn [segment_of speaker_label].
  by rewrite <- Hsame, labels_after_first.
Qed.

(** C10. In the full-file path a turn whose duration equals
    [min_segment_duration] passes the filter, whose comparison is strict:
    a segment is emitted for it. *)
Theorem boundary_turn_is_kept (audio_path : string) (sample_rate : Z)
    (min_speakers max_speakers : option Z) (min_segment_duration : float)
    (w0 : Tensor) (sr0 : Z) (w : Tensor) (turns : list Turn) (total : float)
    (tr : list Call) (turn : Turn) :
  runs_through self audio_path sample_rate min_speakers max_speakers
    min_segment_duration w0 sr0 w turns total ->
  turn ∈ turns ->
  eqb (sub (turn_end turn) (turn_start turn)) min_segment_duration = true ->
  exists r tr' seg,
    process_audio self audio_path sample_rate min_speakers max_speakers
      min_segment_duration tr = (inr r, tr')
    /\ success r = true
    /\ seg ∈ segments r
    /\ start_time seg = turn_start turn
    /\ end_time seg = turn_end turn
    /\ duration seg = sub (turn_end turn) (turn_start turn).
Proof.
  intros Hrun Hin Heq.
  eexists _, _, (segment_of self (labels_after turns).1 w sample_rate turn).
  split; [by apply process_audio_run|].
  cbn [success segments]. split; [done|]. split; [|done].
  apply list_elem_of_In, in_map, filter_In. split.
  - by apply list_elem_of_In.
  - unfold survives, ltb. unfold eqb, SFeqb in Heq. unfold SFltb.
    by destruct (SFcompare _ _) as [[]|].
Qed.


(** C3, as the code has it. In the full-file path the slice of a kept turn
    is [waveform[:, int(start*sample_rate):int(end*sample_rate)]], the
    bounds being truncated toward zero, not rounded: the embedding model is
    invoked, for each kept turn in order, on that slice brought to the
    minimal length. With [0 <= a <= b <= shape[1]] the slice holds the
    samples [a, b) of every channel. *)
Theorem slice_bounds_are_truncated (audio_path : string) (sample_rate : Z)
    (min_speakers max_speakers : option Z) (min_segment_duration : float)
    (w0 : Tensor) (sr0 : Z) (w : Tensor) (turns : list Turn) (total : float)
    (tr : list Call) (k : Z) :
  runs_through self audio_path sample_rate min_speakers max_speakers
    min_segment_duration w0 sr0 w turns total ->
  min_samples sample_rate = inr k ->
  exists r evs,
    process_audio self audio_path sample_rate min_speakers max_speakers
      min_segment_duration tr = (inr r, tr ++ evs)
    /\ Forall2
         (fun t passed =>
            exists rate a b,
              float_of_int sample_rate = inr rate
              /\ int_of_float (mul (turn_start t) rate) = inr a
              /\ int_of_float (mul (turn_end t) rate) = inr b
              /\ passed = ensure_min_length (slice_cols w a b) k
              /\ (0 <= a <= b -> b <= shape1 w ->
                  Forall (fun row => length row = t_cols w) (t_rows w) ->
                  slice_cols w a b
                  = mkTensor
                      (map (fun row => take (Z.to_nat (b - a))
                                         (drop (Z.to_nat a) row)) (t_rows w))
                      (Z.to_nat (b - a))))
         (List.filter (survives min_segment_duration) turns)
         (embedding_inputs evs).
Proof.
  intros Hrun Hk. eexists _, _. split; [by apply process_audio_run|].
  destruct Hrun as [_ _ _ Hb _].
  change (?x :: ?l ++ ?y :: ?l') with ([x] ++ l ++ [y] ++ l').
  rewrite !embedding_inputs_app, (embedding_inputs_turns _ _ _ _ Hk).
  replace (embedding_inputs [CallLoad audio_path]) with (@nil Tensor) by done.
  replace (embedding_inputs [CallPipeline w sample_rate min_speakers max_speakers])
    with (@nil Tensor) by done.
  replace (embedding_inputs
             (if negb (sr0 =? sample_rate)
              then [CallResample sr0 sample_rate w0] else []))
    with (@nil Tensor) by (by destruct (negb _)).
  cbn [app].
  apply Forall2_fmap_r, Forall_Forall2_diag, Forall_forall.
  intros t Ht. apply list_elem_of_In, filter_In in Ht as [Hin Hs].
  rewrite Forall_forall in Hb.
  destruct (Hb t) as [[a b] Hab]; [by apply list_elem_of_In|done|].
  unfold compose, segment_waveform. rewrite Hab.
  unfold segment_bounds in Hab.
  destruct (float_of_int sample_rate) as [|rate]; [done|].
  destruct (int_of_float (mul (turn_start t) rate)) as [|a'] eqn:Ha; [done|].
  destruct (int_of_float (mul (turn_end t) rate)) as [|b'] eqn:Hb'; [done|].
  injection Hab as -> ->.
  exists rate, a, b. do 4 (split; [done|]).
  apply slice_cols_in_range.
Qed.

(** C6, as the code has it. Whenever [int(0.5 * sample_rate)] is computed,
    say to [k], the extractor invokes the embedding model exactly once,
    whatever the length of the waveform: on the waveform padded on the
    right with zero samples to exactly [k] samples when it has fewer than
    [k], on the waveform itself otherwise. *)
Theorem short_waveform_is_padded (waveform : Tensor) (sample_rate k : Z)
    (tr : list Call) :
  min_samples sample_rate = inr k ->
  exists o passed,
    _extract_embedding self waveform sample_rate tr
    = (inr o, tr ++ [CallEmbedding passed])
    /\ (shape1 waveform < k ->
        shape1 passed = k
        /\ t_rows passed
           = map (fun row => row ++ replicate (Z.to_nat (k - shape1 waveform))
                                     (S754_zero false)) (t_rows waveform))
    /\ (k <= shape1 waveform -> passed = waveform).
Proof.
  intros Hk. exists (extract_value self waveform sample_rate),
    (ensure_min_length waveform k).
  split; [|split].
  - rewrite extract_embedding_run. unfold extract_calls. by rewrite Hk.
  - intros Hshort. unfold ensure_min_length.
    destruct (Z.ltb_spec (shape1 waveform) k); [|lia].
    unfold pad_right, shape1 in *. cbn [t_cols t_rows]. split; [lia|done].
  - intros Hlong. unfold ensure_min_length.
    destruct (Z.ltb_spec (shape1 waveform) k); [lia|done].
Qed.


(** C8. [process_audio_chunk] invokes the diarization model once, with no
    speaker hint. When the model returns and the bounds of the turns
    convert, every turn gives one segment, in order and whatever its
    duration, labelled with the raw speaker token. *)
Theorem chunk_labels_are_raw (audio_data : list sample) (sample_rate index : Z)
    (tr : list Call) :
  (exists x evs,
      process_audio_chunk self audio_data sample_rate index tr = (x, tr ++ evs)
      /\ pipeline_calls evs
         = [(unsqueeze0 audio_data, sample_rate, None, None)])
  /\ forall turns,
      pipeline self (unsqueeze0 audio_data) sample_rate None None = inr turns ->
      Forall (fun t => exists ab, segment_bounds sample_rate t = inr ab) turns ->
      exists r tr',
        process_audio_chunk self audio_data sample_rate index tr = (inr r, tr')
        /\ chunk_success r = true
        /\ Forall2 (fun seg t => chunk_speaker_label seg = speaker t
                                 /\ chunk_start_time seg = turn_start t
                                 /\ chunk_end_time seg = turn_end t)
             (chunk_segments r) turns.
Proof.
  split.
  - unfold process_audio_chunk, process_audio_chunk_body, try_except,
      bind at 1 2, invoke at 1.
    destruct (pipeline self (unsqueeze0 audio_data) sample_rate None None)
      as [e|turns].
    + eexists _, [_]. unfold ret. split; done.
    + destruct (chunk_loop_trace self (unsqueeze0 audio_data) sample_rate
                  turns []
                  (tr ++ [CallPipeline (unsqueeze0 audio_data) sample_rate
                            None None]))
        as (x & evs & -> & Hevs).
      rewrite <- app_assoc.
      destruct x as [e|segs]; unfold ret; eexists _, _;
        (split; [done|]); unfold pipeline_calls in *;
        by rewrite omap_app, Hevs.
  - intros turns Hpipe Hb. eexists _, _.
    split; [by apply process_audio_chunk_run|].
    cbn [chunk_success chunk_segments]. split; [done|].
    by apply Forall2_fmap_l, Forall_Forall2_diag, Forall_forall.
Qed.

(** C9. When the native rate equals the target rate the resampler is not
    invoked and the loaded buffer goes on as it is; in every case in which
    normalization returns, the rate of the buffer it returns is the target
    rate. *)
Theorem normalized_rate_is_target (audio_path : string) (target : Z)
    (w0 : Tensor) (native : Z) (w1 : Tensor) (tr : list Call) :
  torchaudio_load self audio_path = inr (w0, native) ->
  resampled self w0 native target = inr w1 ->
  exists evs,
    normalize self audio_path target tr = (inr (to_mono self w1), tr ++ evs)
    /\ rate_after native evs = target
    /\ (native = target -> w1 = w0 /\ resample_calls evs = []).
Proof.
  intros Hload Hres. eexists. rewrite (normalize_run _ _ _ _ _ _ Hload), Hres.
  split; [done|]. unfold resampled in Hres.
  destruct (Z.eqb_spec native target) as [->|Hne]; cbn [negb] in *.
  - split; [done|]. intros _. split; [congruence|done].
  - split; [done|]. intros Heq. by destruct Hne.
Qed.

End Claims.

(** ** The scenarios, run *)

Lemma demo_runs_through :
  runs_through Demo.engine "meeting.wav" 16000 None None one
    (Demo.clip 160000) 16000 (Demo.clip 160000) Demo.turns (of_Z 10).
Proof.
  split.
  - reflexivity.
  - exists (Demo.clip 160000). split; reflexivity.
  - reflexivity.
  - repeat constructor; intros _; eexists; vm_compute; reflexivity.
  - vm_compute. reflexivity.
Defined.

Lemma demo_min_samples : min_samples 16000 = inr 8000.
Proof. vm_compute. reflexivity. Defined.

(** [int(0.5 * sample_rate)] at some usual rates. *)
Example min_samples_usual_rates :
  min_samples 8000 = inr 4000 /\ min_samples 11025 = inr 5512
  /\ min_samples 22050 = inr 11025 /\ min_samples 44100 = inr 22050
  /\ min_samples 48000 = inr 24000.
Proof. repeat split; vm_compute; reflexivity. Qed.

(** The scenario of the specification: three speakers counted, the
    micro-turn dropped, the embedding of the four-second turn empty. *)
Example demo_result :
  exists emb_a emb_d,
    fst (process_audio Demo.engine "meeting.wav" 16000 None None one [])
    = inr (mkResult true
             [mkSegment "Speaker 1" (of_Z 0) (of_Z 6) (of_Z 6) one emb_a;
              mkSegment "Speaker 2" (of_Z 6) (of_Z 10) (of_Z 4) one [];
              mkSegment "Speaker 2" (of_Z 2) (of_Z 3) (of_Z 1) one emb_d]
             (Some 3%nat) (Some (of_Z 10)) (Some 16000) None).
Proof. eexists _, _. vm_compute. reflexivity. Qed.


Lemma short_turns_dropped_but_counted_witness :
  runs_through Demo.engine "meeting.wav" 16000 None None one
    (Demo.clip 160000) 16000 (Demo.clip 160000) Demo.turns (of_Z 10)
  /\ exists r tr',
      process_audio Demo.engine "meeting.wav" 16000 None None one [] = (inr r, tr')
      /\ success r = true
      /\ Forall2 (fun seg t => start_time seg = turn_start t
                               /\ end_time seg = turn_end t
                               /\ ltb (duration seg) one = false)
           (segments r)
           (List.filter
              (fun t => negb (ltb (sub (turn_end t) (turn_start t)) one))
              Demo.turns)
      /\ num_speakers r
         = Some (size (list_to_set (speaker <$> Demo.turns) : gset string)).
Proof.
  split.
  - exact demo_runs_through.
  - apply (proj2 (short_turns_dropped_but_counted Demo.engine "meeting.wav"
                    16000 None None one (Demo.clip 160000) 16000
                    (Demo.clip 160000) Demo.turns (of_Z 10) []
                    demo_runs_through)).
Defined.

Lemma labels_follow_first_appearance_witness :
  runs_through Demo.engine "meeting.wav" 16000 None None one
    (Demo.clip 160000) 16000 (Demo.clip 160000) Demo.turns (of_Z 10)
  /\ exists r tr',
      process_audio Demo.engine "meeting.wav" 16000 None None one [] = (inr r, tr')
      /\ Forall2
           (fun seg t =>
              forall before first after,
                Demo.turns = before ++ first :: after ->
                speaker first = speaker t ->
                speaker first ∉ speaker <$> before ->
                speaker_label seg
                = "Speaker " +:+
                  pretty (S (size (list_to_set (speaker <$> before) : gset string))))
           (segments r) (List.filter (survives one) Demo.turns).
Proof.
  split.
  - exact demo_runs_through.
  - apply (labels_follow_first_appearance Demo.engine "meeting.wav" 16000
             None None one (Demo.clip 160000) 16000 (Demo.clip 160000)
             Demo.turns (of_Z 10) []).
    exact demo_runs_through.
Defined.

Lemma boundary_turn_is_kept_witness :
  Demo.turn_d ∈ Demo.turns
  /\ eqb (sub (turn_end Demo.turn_d) (turn_start Demo.turn_d)) one = true
  /\ exists r tr' seg,
      process_audio Demo.engine "meeting.wav" 16000 None None one [] = (inr r, tr')
      /\ success r = true
      /\ seg ∈ segments r
      /\ start_time seg = turn_start Demo.turn_d
      /\ end_time seg = turn_end Demo.turn_d
      /\ duration seg = sub (turn_end Demo.turn_d) (turn_start Demo.turn_d).
Proof.
  assert (Demo.turn_d ∈ Demo.turns) as Hin.
  { unfold Demo.turns. do 3 apply list_elem_of_further. apply list_elem_of_here. }
  split; [exact Hin|]. split; [vm_compute; reflexivity|].
  apply (boundary_turn_is_kept Demo.engine "meeting.wav" 16000 None None one
           (Demo.clip 160000) 16000 (Demo.clip 160000) Demo.turns (of_Z 10) []
           Demo.turn_d demo_runs_through Hin).
  vm_compute. reflexivity.
Defined.


Lemma slice_bounds_are_truncated_witness :
  runs_through Demo.engine "meeting.wav" 16000 None None one
    (Demo.clip 160000) 16000 (Demo.clip 160000) Demo.turns (of_Z 10)
  /\ min_samples 16000 = inr 8000
  /\ exists r evs,
      process_audio Demo.engine "meeting.wav" 16000 None None one []
      = (inr r, [] ++ evs)
      /\ Forall2
           (fun t passed =>
              exists rate a b,
                float_of_int 16000 = inr rate
                /\ int_of_float (mul (turn_start t) rate) = inr a
                /\ int_of_float (mul (turn_end t) rate) = inr b
                /\ passed = ensure_min_length (slice_cols (Demo.clip 160000) a b) 8000
                /\ (0 <= a <= b -> b <= shape1 (Demo.clip 160000) ->
                    Forall (fun row => length row = t_cols (Demo.clip 160000))
                      (t_rows (Demo.clip 160000)) ->
                    slice_cols (Demo.clip 160000) a b
                    = mkTensor
                        (map (fun row => take (Z.to_nat (b - a))
                                           (drop (Z.to_nat a) row))
                           (t_rows (Demo.clip 160000)))
                        (Z.to_nat (b - a))))
           (List.filter (survives one) Demo.turns)
           (embedding_inputs evs).
Proof.
  split; [exact demo_runs_through|]. split; [exact demo_min_samples|].
  apply (slice_bounds_are_truncated Demo.engine "meeting.wav" 16000 None None
           one (Demo.clip 160000) 16000 (Demo.clip 160000) Demo.turns (of_Z 10)
           [] 8000 demo_runs_through demo_min_samples).
Defined.

(** C3, as the specification words it, fails: the turn of [Demo.fractional]
    ends at sample 16000.8; the specification rounds the bound to 16001, the
    engine passes the 16000 samples [0, 16000). *)
Lemma rounded_bounds_counterexample :
  let evs := snd (process_audio Demo.fractional "meeting.wav" 16000 None None one []) in
  survives one Demo.turn_f = true
  /\ spec_segment_bounds 16000 Demo.turn_f = inr (0, 16001)
  /\ segment_bounds 16000 Demo.turn_f = inr (0, 16000)
  /\ embedding_inputs evs = [slice_cols (Demo.clip 160000) 0 16000]
  /\ embedding_inputs evs <> [slice_cols (Demo.clip 160000) 0 16001].
Proof.
  cbv zeta. do 4 (split; [vm_compute; reflexivity|]).
  intros H. apply (f_equal (map t_cols)) in H. vm_compute in H. discriminate H.
Qed.

Lemma short_waveform_is_padded_witness :
  min_samples 16000 = inr 8000
  /\ exists o passed,
      _extract_embedding Demo.engine (Demo.clip 4800) 16000 []
      = (inr o, [] ++ [CallEmbedding passed])
      /\ (shape1 (Demo.clip 4800) < 8000 ->
          shape1 passed = 8000
          /\ t_rows passed
             = map (fun row => row ++ replicate (Z.to_nat (8000 - shape1 (Demo.clip 4800)))
                                       (S754_zero false)) (t_rows (Demo.clip 4800)))
      /\ (8000 <= shape1 (Demo.clip 4800) -> passed = Demo.clip 4800).
Proof.
  split; [exact demo_min_samples|].
  apply (short_waveform_is_padded Demo.engine (Demo.clip 4800) 16000 8000 []
           demo_min_samples).
Defined.

(** C6, as the specification words it, fails at an odd rate: at 11025 Hz
    half a second is 5512.5 samples. A waveform of 5000 samples is padded to
    5512 samples, and one of 5512 samples, which is shorter than half a
    second, is not padded at all. *)
Lemma odd_rate_padding_counterexample :
  min_samples 11025 = inr 5512
  /\ 2 * shape1 (Demo.clip 5000) < 11025
  /\ (exists o passed,
        _extract_embedding Demo.engine (Demo.clip 5000) 11025 []
        = (inr o, [CallEmbedding passed])
        /\ shape1 passed = 5512
        /\ 2 * shape1 passed <> 11025)
  /\ 2 * shape1 (Demo.clip 5512) < 11025
  /\ exists o,
      _extract_embedding Demo.engine (Demo.clip 5512) 11025 []
      = (inr o, [CallEmbedding (Demo.clip 5512)]).
Proof.
  split; [vm_compute; reflexivity|]. split; [vm_compute; reflexivity|].
  split; [|split; [vm_compute; reflexivity|]].
  - eexists _, _. split; [vm_compute; reflexivity|].
    split; [vm_compute; reflexivity|]. vm_compute. discriminate.
  - eexists. vm_compute. reflexivity.
Qed.



Lemma chunk_labels_are_raw_witness :
  pipeline Demo.engine
    (unsqueeze0 (replicate (Z.to_nat 160000) (S754_zero false))) 16000
    None None = inr Demo.turns
  /\ Forall (fun t => exists ab, segment_bounds 16000 t = inr ab) Demo.turns
  /\ exists r tr',
      process_audio_chunk Demo.engine (replicate (Z.to_nat 160000) (S754_zero false))
        16000 7 [] = (inr r, tr')
      /\ chunk_success r = true
      /\ Forall2 (fun seg t => chunk_speaker_label seg = speaker t
                               /\ chunk_start_time seg = turn_start t
                               /\ chunk_end_time seg = turn_end t)
           (chunk_segments r) Demo.turns.
Proof.
  assert (Forall (fun t => exists ab, segment_bounds 16000 t = inr ab) Demo.turns)
    as Hb by (repeat constructor; eexists; vm_compute; reflexivity).
  split; [reflexivity|]. split; [exact Hb|].
  apply (proj2 (chunk_labels_are_raw Demo.engine
                  (replicate (Z.to_nat 160000) (S754_zero false)) 16000 7 [])
           Demo.turns eq_refl Hb).
Defined.

Lemma normalized_rate_is_target_witness :
  torchaudio_load Demo.engine "phone.wav" = inr (Demo.clip 80000, 8000)
  /\ resampled Demo.engine (Demo.clip 80000) 8000 16000 = inr (Demo.clip 160000)
  /\ exists evs,
      normalize Demo.engine "phone.wav" 16000 []
      = (inr (to_mono Demo.engine (Demo.clip 160000)), [] ++ evs)
      /\ rate_after 8000 evs = 16000
      /\ (8000 = 16000 -> Demo.clip 160000 = Demo.clip 80000 /\ resample_calls evs = []).
Proof.
  split; [reflexivity|]. split; [reflexivity|].
  apply (normalized_rate_is_target Demo.engine "phone.wav" 16000
           (Demo.clip 80000) 8000 (Demo.clip 160000) [] eq_refl eq_refl).
Defined.

(** ** Further properties of the engine *)

Section Results.

Variable self : Models.

(** A property of the loop state that every iteration that returns keeps
    holds when the loop returns. *)
Lemma for_each_invariant {A S : Type} (body : S -> A -> M S) (I : S -> Prop) :
  (forall st x tr st' tr', I st -> body st x tr = (inr st', tr') -> I st') ->
  forall xs st tr st' tr',
    I st -> for_each body xs st tr = (inr st', tr') -> I st'.
Proof.
  intros Hbody. induction xs as [|x xs IH]; intros st tr st' tr' Hst Hrun.
  - injection Hrun as <- _. exact Hst.
  - rewrite for_each_cons in Hrun.
    destruct (body st x tr) as [[e|st1] tr1] eqn:Hx; [done|].
    eapply IH; [|exact Hrun]. eapply Hbody; [exact Hst|exact Hx].
Qed.

(** An iteration that returns either drops the turn, or appends the segment
    of the turn, labelled from the map. *)
Lemma loop_body_inr (w : Tensor) (sr : Z) (md : float) (segs : list Segment)
    (st : gmap string string * nat) (t : Turn) (tr : list Call)
    (segs' : list Segment) (st' : gmap string string * nat) (tr' : list Call) :
  loop_body self w sr md (segs, st) t tr = (inr (segs', st'), tr') ->
  st' = assign_label st (speaker t)
  /\ (segs' = segs
      \/ survives md t = true
         /\ segs' = segs ++ [segment_of self st'.1 w sr t]).
Proof.
  intros Hrun. destruct (survives md t) eqn:Hs.
  - destruct (segment_bounds sr t) as [e|ab] eqn:Hab.
    + by rewrite (loop_body_raises _ _ _ _ _ _ _ _ _ Hs Hab) in Hrun.
    + rewrite (loop_body_kept _ _ _ _ _ _ _ _ _ Hs Hab) in Hrun.
      injection Hrun as <- <- _. split; [done|]. by right.
  - rewrite (loop_body_short _ _ _ _ _ _ _ _ Hs) in Hrun.
    injection Hrun as <- <- _. split; [done|]. by left.
Qed.

(** The steps of a body of [process_audio] that returns. *)
Lemma process_audio_body_inr (audio_path : string) (sr : Z) (mn mx : option Z)
    (md : float) (tr : list Call) (r : DiarizationResult) (tr' : list Call) :
  process_audio_body self audio_path sr mn mx md tr = (inr r, tr') ->
  exists w turns segs st total tr1,
    normalize self audio_path sr tr = (inr w, tr1)
    /\ pipeline self w sr mn mx = inr turns
    /\ for_each (loop_body self w sr md) turns ([], (∅, 1%nat))
         (tr1 ++ [CallPipeline w sr mn mx]) = (inr (segs, st), tr')
    /\ true_div (shape1 w) sr = inr total
    /\ r = mkResult true segs (Some (size st.1)) (Some total) (Some sr) None.
Proof.
  unfold process_audio_body, bind. intros Hrun.
  destruct (normalize self audio_path sr tr) as [[e|w] tr1]; [done|].
  unfold invoke in Hrun.
  destruct (pipeline self w sr mn mx) as [e|turns] eqn:Hpipe; [done|].
  destruct (for_each _ turns _ _) as [[e|[segs st]] tr2] eqn:Hloop; [done|].
  unfold lift in Hrun.
  destruct (true_div (shape1 w) sr) as [e|total] eqn:Htotal; [done|].
  injection Hrun as <- <-. by exists w, turns, segs, st, total, tr1.
Qed.

(** The result of [process_audio] is that of its body, or the failure
    document. *)
Lemma process_audio_cases (audio_path : string) (sr : Z) (mn mx : option Z)
    (md : float) (tr : list Call) :
  (exists r tr',
      process_audio_body self audio_path sr mn mx md tr = (inr r, tr')
      /\ process_audio self audio_path sr mn mx md tr = (inr r, tr'))
  \/ (exists e tr',
        process_audio_body self audio_path sr mn mx md tr = (inl e, tr')
        /\ process_audio self audio_path sr mn mx md tr = (inr (failure e), tr')).
Proof.
  unfold process_audio, try_except.
  destruct (process_audio_body self audio_path sr mn mx md tr) as [[e|r] tr'].
  - right. by exists e, tr'.
  - left. by exists r, tr'.
Qed.

(** On every input, every segment of the result has the constant confidence
    1.0 and a duration that is the difference of its two times and is not
    below the minimum. *)
Theorem segments_are_well_formed (audio_path : string) (sample_rate : Z)
    (min_speakers max_speakers : option Z) (min_segment_duration : float)
    (tr : list Call) :
  exists r tr',
    process_audio self audio_path sample_rate min_speakers max_speakers
      min_segment_duration tr = (inr r, tr')
    /\ Forall (fun seg =>
                 confidence seg = one
                 /\ duration seg = sub (end_time seg) (start_time seg)
                 /\ ltb (duration seg) min_segment_duration = false)
         (segments r).
Proof.
  destruct (process_audio_cases audio_path sample_rate min_speakers max_speakers
              min_segment_duration tr)
    as [(r & tr' & Hbody & ->)|(e & tr' & _ & ->)].
  - exists r, tr'. split; [done|].
    apply process_audio_body_inr in Hbody
      as (w & turns & segs & st & total & tr1 & _ & _ & Hloop & _ & ->).
    cbn [segments].
    apply (for_each_invariant _
             (fun s : LoopState =>
                Forall (fun seg =>
                          confidence seg = one
                          /\ duration seg = sub (end_time seg) (start_time seg)
                          /\ ltb (duration seg) min_segment_duration = false) s.1)
             ) in Hloop; [done| |by constructor].
    intros [segs0 st0] t tr0 [segs1 st1] tr2 Hinv Hstep. cbn [fst] in *.
    apply loop_body_inr in Hstep as [_ [->|[Hs ->]]]; [done|].
    apply Forall_app. split; [done|]. constructor; [|constructor].
    cbn [segment_of confidence duration end_time start_time].
    unfold survives in Hs. by apply negb_true_iff in Hs.
  - exists (failure e), tr'. split; [done|]. constructor.
Qed.


End Results.

(** ** The labels of a call *)

Lemma speaker_label_inj (k1 k2 : nat) :
  "Speaker " +:+ pretty k1 = "Speaker " +:+ pretty k2 -> k1 = k2.
Proof. intros H. by apply (inj (String.app "Speaker ")), (inj pretty) in H. Qed.

Lemma labels_numbered_init : labels_numbered (∅, 1%nat).
Proof.
  unfold labels_numbered. cbn [fst snd].
  split; [by rewrite map_size_empty|]. split.
  - intros s l Hs. by rewrite lookup_empty in Hs.
  - intros s1 s2 l Hs. by rewrite lookup_empty in Hs.
Qed.

Lemma labels_numbered_step (st : gmap string string * nat) (s : string) :
  labels_numbered st -> labels_numbered (assign_label st s).
Proof.
  destruct st as [labels counter]. unfold labels_numbered, assign_label.
  cbn [fst snd]. intros (Hc & Hform & Hinj).
  destruct (labels !! s) as [l|] eqn:Hs; cbn [fst snd]; [done|].
  split; [by rewrite map_size_insert_None, Hc|]. split.
  - intros s' l'. rewrite lookup_insert. case_decide as Heq.
    + intros [= <-]. exists counter. split; [lia|done].
    + intros Hs'. destruct (Hform s' l' Hs') as (k & Hk & ->).
      exists k. split; [lia|done].
  - intros s1 s2 l'. rewrite !lookup_insert.
    do 2 case_decide; subst; try done.
    + intros [= <-] Hs2. destruct (Hform s2 _ Hs2) as (k & Hk & Heq).
      apply speaker_label_inj in Heq. lia.
    + intros Hs1 [= <-]. destruct (Hform s1 _ Hs1) as (k & Hk & Heq).
      apply speaker_label_inj in Heq. lia.
    + apply Hinj.
Qed.

Lemma labels_numbered_fold (spks : list string) :
  forall st, labels_numbered st -> labels_numbered (fold_left assign_label spks st).
Proof.
  induction spks as [|s spks IH]; intros st Hst; [done|].
  cbn [fold_left]. by apply IH, labels_numbered_step.
Qed.

Lemma assign_label_counter (st : gmap string string * nat) (s : string) :
  (st.2 <= (assign_label st s).2)%nat.
Proof.
  destruct st as [labels counter]. unfold assign_label.
  destruct (labels !! s); cbn [snd]; lia.
Qed.

Section Labels.

Variable self : Models.

(** On every input, a result with [success = true] carries a number of
    speakers [n], and the label of every segment is ["Speaker k"] for some
    [k] between 1 and [n]. *)
Theorem labels_are_numbered (audio_path : string) (sample_rate : Z)
    (min_speakers max_speakers : option Z) (min_segment_duration : float)
    (tr : list Call) :
  exists r tr',
    process_audio self audio_path sample_rate min_speakers max_speakers
      min_segment_duration tr = (inr r, tr')
    /\ (success r = true ->
        exists n,
          num_speakers r = Some n
          /\ Forall (fun seg =>
                       exists k, (1 <= k <= n)%nat
                                 /\ speaker_label seg = "Speaker " +:+ pretty k)
               (segments r)).
Proof.
  destruct (process_audio_cases self audio_path sample_rate min_speakers
              max_speakers min_segment_duration tr)
    as [(r & tr' & Hbody & ->)|(e & tr' & _ & ->)];
    [|by exists (failure e), tr'].
  exists r, tr'. split; [done|]. intros _.
  apply process_audio_body_inr in Hbody
    as (w & turns & segs & st & total & tr1 & _ & _ & Hloop & _ & ->).
  exists (size st.1). split; [done|]. cbn [segments].
  apply (for_each_invariant _
           (fun s : LoopState =>
              labels_numbered s.2
              /\ Forall (fun seg =>
                           exists k, (1 <= k < s.2.2)%nat
                                     /\ speaker_label seg = "Speaker " +:+ pretty k)
                   s.1)) in Hloop.
  - destruct Hloop as [(Hc & _) Hsegs]. cbn [fst snd] in *.
    eapply Forall_impl; [exact Hsegs|]. intros seg (k & Hk & Hl).
    exists k. split; [lia|done].
  - intros [segs0 st0] t tr0 [segs1 st1] tr2 [Hnum Hsegs] Hstep.
    cbn [fst snd] in *.
    apply loop_body_inr in Hstep as [-> Hcases].
    pose proof (labels_numbered_step st0 (speaker t) Hnum) as Hnum'.
    pose proof (assign_label_counter st0 (speaker t)) as Hle.
    assert (Forall (fun seg =>
                      exists k, (1 <= k < (assign_label st0 (speaker t)).2)%nat
                                /\ speaker_label seg = "Speaker " +:+ pretty k)
              segs0) as Hold.
    { eapply Forall_impl; [exact Hsegs|]. intros seg (k & Hk & Hl).
      exists k. split; [lia|done]. }
    split; [done|]. destruct Hcases as [->|[_ ->]]; [done|].
    apply Forall_app. split; [done|]. constructor; [|constructor].
    cbn [segment_of speaker_label].
    destruct (assign_label_lookup st0 (speaker t)) as [l Hl]. rewrite Hl.
    destruct Hnum' as (_ & Hform & _). exact (Hform _ _ Hl).
  - split; [apply labels_numbered_init|constructor].
Qed.

(** In a call that runs through, two segments carry the same label exactly
    when their turns have the same speaker token. *)
Theorem labels_identify_speakers (audio_path : string) (sample_rate : Z)
    (min_speakers max_speakers : option Z) (min_segment_duration : float)
    (w0 : Tensor) (sr0 : Z) (w : Tensor) (turns : list Turn) (total : float)
    (tr : list Call) :
  runs_through self audio_path sample_rate min_speakers max_speakers
    min_segment_duration w0 sr0 w turns total ->
  exists r tr',
    process_audio self audio_path sample_rate min_speakers max_speakers
      min_segment_duration tr = (inr r, tr')
    /\ forall i j seg_i seg_j t_i t_j,
        segments r !! i = Some seg_i ->
        segments r !! j = Some seg_j ->
        List.filter (survives min_segment_duration) turns !! i = Some t_i ->
        List.filter (survives min_segment_duration) turns !! j = Some t_j ->
        speaker_label seg_i = speaker_label seg_j <-> speaker t_i = speaker t_j.
Proof.
  intros Hrun. eexists _, _. split; [by apply process_audio_run|].
  cbn [segments]. intros i j seg_i seg_j t_i t_j Hi Hj Hti Htj.
  rewrite list_lookup_fmap, Hti in Hi. rewrite list_lookup_fmap, Htj in Hj.
  injection Hi as <-. injection Hj as <-. cbn [segment_of speaker_label].
  assert (forall t, t ∈ List.filter (survives min_segment_duration) turns ->
                    is_Some ((labels_after turns).1 !! speaker t)) as Hdom.
  { intros t Ht. apply list_elem_of_In, filter_In in Ht as [Ht _].
    apply elem_of_dom. rewrite labels_after_dom, elem_of_list_to_set.
    apply list_elem_of_fmap. exists t. split; [done|by apply list_elem_of_In]. }
  destruct (Hdom t_i) as [li Hli]; [by eapply list_elem_of_lookup_2|].
  destruct (Hdom t_j) as [lj Hlj]; [by eapply list_elem_of_lookup_2|].
  rewrite Hli, Hlj. change (li = lj <-> speaker t_i = speaker t_j).
  destruct (labels_numbered_fold (speaker <$> turns) _ labels_numbered_init)
    as (_ & _ & Hinj).
  split.
  - intros Heq. subst lj. exact (Hinj _ _ _ Hli Hlj).
  - intros Heq. rewrite Heq in Hli. congruence.
Qed.

End Labels.

(** ** The result of the chunk path *)

Section ChunkResults.

Variable self : Models.

Lemma chunk_loop_body_inr (w : Tensor) (sr : Z) (segs : list ChunkSegment)
    (t : Turn) (tr : list Call) (segs' : list ChunkSegment) (tr' : list Call) :
  chunk_loop_body self w sr segs t tr = (inr segs', tr') ->
  segs' = segs ++ [chunk_segment_of self w sr t].
Proof.
  intros Hrun. destruct (segment_bounds sr t) as [e|ab] eqn:Hab.
  - unfold chunk_loop_body, bind, lift in Hrun. by rewrite Hab in Hrun.
  - rewrite (chunk_loop_body_run _ _ _ _ _ _ _ Hab) in Hrun.
    by injection Hrun as <- _.
Qed.

Lemma chunk_loop_raises (w : Tensor) (sr : Z) (before : list Turn) (turn : Turn)
    (after : list Turn) (e : PyExc) :
  forall (segs : list ChunkSegment) (tr : list Call),
    Forall (fun t => exists ab, segment_bounds sr t = inr ab) before ->
    segment_bounds sr turn = inl e ->
    exists tr',
      for_each (chunk_loop_body self w sr) (before ++ turn :: after) segs tr
      = (inl e, tr').
Proof.
  induction before as [|t before IH]; intros segs tr Hb He;
    cbn [app]; rewrite for_each_cons.
  - unfold chunk_loop_body, bind, lift. rewrite He. eauto.
  - apply Forall_cons in Hb as [[ab Hab] Hb].
    rewrite (chunk_loop_body_run _ _ _ _ _ _ _ Hab). by apply IH.
Qed.


End ChunkResults.

(** ** What a call invokes *)

Section Invocations.

Variable self : Models.

(** The events of a loop are those of its iterations. *)
Lemma for_each_trace {A S : Type} (body : S -> A -> M S) (P : list Call -> Prop) :
  P [] ->
  (forall evs1 evs2, P evs1 -> P evs2 -> P (evs1 ++ evs2)) ->
  (forall st x tr, exists r evs, body st x tr = (r, tr ++ evs) /\ P evs) ->
  forall xs st tr,
    exists r evs, for_each body xs st tr = (r, tr ++ evs) /\ P evs.
Proof.
  intros Hnil Happ Hbody. induction xs as [|x xs IH]; intros st tr.
  - exists (inr st), []. by rewrite app_nil_r.
  - rewrite for_each_cons.
    destruct (Hbody st x tr) as (r & evs1 & -> & H1).
    destruct r as [e|st1]; [by exists (inl e), evs1|].
    destruct (IH st1 (tr ++ evs1)) as (r & evs2 & -> & H2).
    exists r, (evs1 ++ evs2). rewrite <- app_assoc. split; [done|].
    by apply Happ.
Qed.

Lemma extractions_nil (sr : Z) : extractions sr [].
Proof. by exists []. Qed.

Lemma extractions_app (sr : Z) (evs1 evs2 : list Call) :
  extractions sr evs1 -> extractions sr evs2 -> extractions sr (evs1 ++ evs2).
Proof.
  intros [ws1 ->] [ws2 ->]. exists (ws1 ++ ws2). by rewrite flat_map_app.
Qed.

Lemma loop_body_trace (w : Tensor) (sr : Z) (md : float) (st : LoopState)
    (t : Turn) (tr : list Call) :
  exists r evs,
    loop_body self w sr md st t tr = (r, tr ++ evs) /\ extractions sr evs.
Proof.
  destruct st as [segs st]. destruct (survives md t) eqn:Hs.
  - destruct (segment_bounds sr t) as [e|ab] eqn:Hab.
    + rewrite (loop_body_raises _ _ _ _ _ _ _ _ _ Hs Hab).
      exists (inl e), []. rewrite app_nil_r. split; [done|apply extractions_nil].
    + rewrite (loop_body_kept _ _ _ _ _ _ _ _ _ Hs Hab).
      eexists _, _. split; [done|].
      exists [segment_waveform w sr t]. cbn. by rewrite app_nil_r.
  - rewrite (loop_body_short _ _ _ _ _ _ _ _ Hs).
    eexists _, []. rewrite app_nil_r. split; [done|apply extractions_nil].
Qed.

Lemma chunk_loop_body_trace (w : Tensor) (sr : Z) (segs : list ChunkSegment)
    (t : Turn) (tr : list Call) :
  exists r evs,
    chunk_loop_body self w sr segs t tr = (r, tr ++ evs) /\ extractions sr evs.
Proof.
  destruct (segment_bounds sr t) as [e|ab] eqn:Hab.
  - exists (inl e), []. unfold chunk_loop_body, bind, lift.
    rewrite Hab, app_nil_r. split; [done|apply extractions_nil].
  - rewrite (chunk_loop_body_run _ _ _ _ _ _ _ Hab).
    eexists _, _. split; [done|].
    exists [segment_waveform w sr t]. cbn. by rewrite app_nil_r.
Qed.

Lemma extractions_others (sr : Z) (evs : list Call) :
  extractions sr evs ->
  load_calls evs = [] /\ resample_calls evs = [] /\ pipeline_calls evs = [].
Proof.
  intros [ws ->]. induction ws as [|w ws (IH1 & IH2 & IH3)]; [done|].
  cbn [flat_map]. unfold load_calls, resample_calls, pipeline_calls in *.
  rewrite !omap_app, IH1, IH2, IH3. unfold extract_calls.
  by destruct (min_samples sr).
Qed.

Lemma ensure_min_length_shape (w : Tensor) (k : Z) :
  k <= shape1 (ensure_min_length w k).
Proof.
  unfold ensure_min_length.
  destruct (Z.ltb_spec (shape1 w) k); [|done].
  unfold pad_right, shape1 in *. cbn [t_cols]. lia.
Qed.

Lemma extractions_inputs (sr : Z) (evs : list Call) :
  extractions sr evs ->
  match min_samples sr with
  | inr k => Forall (fun w => k <= shape1 w) (embedding_inputs evs)
  | inl _ => embedding_inputs evs = []
  end.
Proof.
  intros [ws ->]. unfold extract_calls.
  destruct (min_samples sr) as [e|k].
  - by induction ws.
  - induction ws as [|w ws IH]; [constructor|].
    cbn. constructor; [apply ensure_min_length_shape|exact IH].
Qed.

Lemma normalize_load_fails (audio_path : string) (sr : Z) (tr : list Call)
    (e : PyExc) :
  torchaudio_load self audio_path = inl e ->
  normalize self audio_path sr tr = (inl e, tr ++ [CallLoad audio_path]).
Proof. intros Hload. unfold normalize, bind, invoke. by rewrite Hload. Qed.

(** The shape of the trace of [process_audio], on every input. *)
Lemma process_audio_trace (audio_path : string) (sr : Z) (mn mx : option Z)
    (md : float) (tr : list Call) :
  exists r rs ps evs,
    process_audio self audio_path sr mn mx md tr
    = (inr r, tr ++ CallLoad audio_path :: rs ++ ps ++ evs)
    /\ (rs = [] \/ exists sr0 w0, sr0 <> sr /\ rs = [CallResample sr0 sr w0])
    /\ (ps = [] \/ exists w, ps = [CallPipeline w sr mn mx])
    /\ extractions sr evs.
Proof.
  unfold process_audio, try_except, process_audio_body, bind at 1 2 3 4.
  destruct (torchaudio_load self audio_path) as [e|[w0 sr0]] eqn:Hload.
  { rewrite (normalize_load_fails _ _ _ _ Hload).
    exists (failure e), [], [], []. split; [done|].
    split; [by left|]. split; [by left|apply extractions_nil]. }
  rewrite (normalize_run _ _ _ _ _ _ Hload).
  set (rs := if negb (sr0 =? sr) then [CallResample sr0 sr w0] else []).
  assert (rs = [] \/ exists sr0 w0, sr0 <> sr /\ rs = [CallResample sr0 sr w0])
    as Hrs.
  { subst rs. destruct (Z.eqb_spec sr0 sr); [by left|]. right. by exists sr0, w0. }
  destruct (resampled self w0 sr0 sr) as [e|w1].
  { exists (failure e), rs, [], []. rewrite !app_nil_r. split; [done|].
    split; [done|]. split; [by left|apply extractions_nil]. }
  unfold invoke at 1.
  destruct (pipeline self (to_mono self w1) sr mn mx) as [e|turns].
  { exists (failure e), rs, [CallPipeline (to_mono self w1) sr mn mx], [].
    rewrite app_nil_r, <- app_assoc. split; [done|].
    split; [done|]. split; [right; by eexists|apply extractions_nil]. }
  destruct (for_each_trace (loop_body self (to_mono self w1) sr md)
              (extractions sr) (extractions_nil sr) (extractions_app sr)
              (loop_body_trace (to_mono self w1) sr md) turns ([], (∅, 1%nat))
              ((tr ++ CallLoad audio_path :: rs)
               ++ [CallPipeline (to_mono self w1) sr mn mx]))
    as (x & evs & -> & Hevs).
  assert (((tr ++ CallLoad audio_path :: rs)
           ++ [CallPipeline (to_mono self w1) sr mn mx]) ++ evs
          = tr ++ CallLoad audio_path
               :: rs ++ [CallPipeline (to_mono self w1) sr mn mx] ++ evs) as ->.
  { by rewrite <- !app_assoc. }
  destruct x as [e|st].
  { exists (failure e), rs, [CallPipeline (to_mono self w1) sr mn mx], evs.
    split; [done|]. split; [done|]. split; [right; by eexists|done]. }
  unfold lift.
  destruct (true_div (shape1 (to_mono self w1)) sr) as [e|total].
  - exists (failure e), rs, [CallPipeline (to_mono self w1) sr mn mx], evs.
    split; [done|]. split; [done|]. split; [right; by eexists|done].
  - eexists _, rs, [CallPipeline (to_mono self w1) sr mn mx], evs.
    split; [done|]. split; [done|]. split; [right; by eexists|done].
Qed.

(** On every input [process_audio] keeps what was recorded before it and
    loads the file exactly once; it resamples at most once, toward the rate
    it was given and only from a different rate; it invokes the diarization
    model at most once, with the rate and the speaker hints it was given. *)
Theorem process_audio_invocations (audio_path : string) (sample_rate : Z)
    (min_speakers max_speakers : option Z) (min_segment_duration : float)
    (tr : list Call) :
  exists r evs,
    process_audio self audio_path sample_rate min_speakers max_speakers
      min_segment_duration tr = (inr r, tr ++ CallLoad audio_path :: evs)
    /\ load_calls evs = []
    /\ (resample_calls evs = []
        \/ exists sr0 w0, sr0 <> sample_rate
                          /\ resample_calls evs = [(sr0, sample_rate, w0)])
    /\ (pipeline_calls evs = []
        \/ exists w, pipeline_calls evs
                     = [(w, sample_rate, min_speakers, max_speakers)]).
Proof.
  destruct (process_audio_trace audio_path sample_rate min_speakers max_speakers
              min_segment_duration tr)
    as (r & rs & ps & evs & -> & Hrs & Hps & Hevs).
  exists r, (rs ++ ps ++ evs). split; [done|].
  apply extractions_others in Hevs as (Hl & Hr & Hp).
  unfold load_calls, resample_calls, pipeline_calls in *.
  rewrite !omap_app, Hl, Hr, Hp, !app_nil_r.
  destruct Hrs as [->|(sr0 & w0 & Hne & ->)];
    destruct Hps as [->|(w & ->)]; cbn.
  - split; [done|]. split; by left.
  - split; [done|]. split; [by left|]. right. by exists w.
  - split; [done|]. split; [|by left]. right. by exists sr0, w0.
  - split; [done|]. split; right; [by exists sr0, w0|by exists w].
Qed.

Lemma process_audio_chunk_trace (audio_data : list sample) (sr index : Z)
    (tr : list Call) :
  exists r evs,
    process_audio_chunk self audio_data sr index tr
    = (inr r, tr ++ CallPipeline (unsqueeze0 audio_data) sr None None :: evs)
    /\ extractions sr evs.
Proof.
  unfold process_audio_chunk, process_audio_chunk_body, try_except,
    bind at 1 2, invoke at 1.
  destruct (pipeline self (unsqueeze0 audio_data) sr None None) as [e|turns].
  { eexists _, []. split; [done|apply extractions_nil]. }
  destruct (for_each_trace (chunk_loop_body self (unsqueeze0 audio_data) sr)
              (extractions sr) (extractions_nil sr) (extractions_app sr)
              (chunk_loop_body_trace (unsqueeze0 audio_data) sr) turns []
              (tr ++ [CallPipeline (unsqueeze0 audio_data) sr None None]))
    as (x & evs & -> & Hevs).
  rewrite <- app_assoc.
  destruct x as [e|segs]; eexists _, evs; by split.
Qed.

(** On every input, in both paths, the embedding model is only invoked on
    waveforms of at least [int(0.5 * sample_rate)] samples, and not at all
    when that number cannot be computed. *)
Theorem embedding_inputs_are_long_enough (audio_path : string) (sample_rate : Z)
    (min_speakers max_speakers : option Z) (min_segment_duration : float)
    (audio_data : list sample) (index : Z) (tr : list Call) :
  (exists r evs,
      process_audio self audio_path sample_rate min_speakers max_speakers
        min_segment_duration tr = (inr r, tr ++ evs)
      /\ (forall k, min_samples sample_rate = inr k ->
                    Forall (fun w => k <= shape1 w) (embedding_inputs evs))
      /\ (forall e, min_samples sample_rate = inl e -> embedding_inputs evs = []))
  /\ exists r evs,
      process_audio_chunk self audio_data sample_rate index tr = (inr r, tr ++ evs)
      /\ (forall k, min_samples sample_rate = inr k ->
                    Forall (fun w => k <= shape1 w) (embedding_inputs evs))
      /\ (forall e, min_samples sample_rate = inl e -> embedding_inputs evs = []).
Proof.
  split.
  - destruct (process_audio_trace audio_path sample_rate min_speakers
                max_speakers min_segment_duration tr)
      as (r & rs & ps & evs & -> & Hrs & Hps & Hevs).
    exists r, (CallLoad audio_path :: rs ++ ps ++ evs). split; [done|].
    assert (embedding_inputs (CallLoad audio_path :: rs ++ ps ++ evs)
            = embedding_inputs evs) as ->.
    { change (CallLoad audio_path :: rs ++ ps ++ evs)
        with ([CallLoad audio_path] ++ rs ++ ps ++ evs).
      rewrite !embedding_inputs_app.
      by destruct Hrs as [->|(? & ? & _ & ->)], Hps as [->|(? & ->)]. }
    apply extractions_inputs in Hevs.
    split; [intros k Hk|intros e He]; by rewrite ?Hk, ?He in Hevs.
  - destruct (process_audio_chunk_trace audio_data sample_rate index tr)
      as (r & evs & -> & Hevs).
    eexists r, (_ :: evs). split; [done|].
    apply extractions_inputs in Hevs. cbn [embedding_inputs omap].
    split; [intros k Hk|intros e He]; by rewrite ?Hk, ?He in Hevs.
Qed.

(** In a call that runs through, the embedding model is invoked once for
    every emitted segment, in order, and for no dropped turn; the embedding
    of a segment is what that invocation returned, or the empty list when it
    raised. *)
Theorem segment_embeddings_follow_invocations (audio_path : string)
    (sample_rate : Z) (min_speakers max_speakers : option Z)
    (min_segment_duration : float) (w0 : Tensor) (sr0 : Z) (w : Tensor)
    (turns : list Turn) (total : float) (tr : list Call) (k : Z) :
  runs_through self audio_path sample_rate min_speakers max_speakers
    min_segment_duration w0 sr0 w turns total ->
  min_samples sample_rate = inr k ->
  exists r evs,
    process_audio self audio_path sample_rate min_speakers max_speakers
      min_segment_duration tr = (inr r, tr ++ evs)
    /\ Forall2 (fun seg passed =>
                  embedding seg
                  = match embedding_model self passed with
                    | inr v => v
                    | inl _ => []
                    end)
         (segments r) (embedding_inputs evs).
Proof.
  intros Hrun Hk. eexists _, _. split; [by apply process_audio_run|].
  change (?x :: ?l ++ ?y :: ?l') with ([x] ++ l ++ [y] ++ l').
  rewrite !embedding_inputs_app, (embedding_inputs_turns _ _ _ _ Hk).
  replace (embedding_inputs [CallLoad audio_path]) with (@nil Tensor) by done.
  replace (embedding_inputs [CallPipeline w sample_rate min_speakers max_speakers])
    with (@nil Tensor) by done.
  replace (embedding_inputs
             (if negb (sr0 =? sample_rate)
              then [CallResample sr0 sample_rate w0] else []))
    with (@nil Tensor) by (by destruct (negb _)).
  cbn [app segments].
  apply Forall2_fmap, Forall_Forall2_diag, Forall_forall. intros t _.
  cbn [segment_of embedding]. unfold extract_value. rewrite Hk.
  by destruct (embedding_model self _).
Qed.

End Invocations.

(** ** Slices at the edge of the buffer *)

Lemma slice_index_range (n i : Z) : 0 <= n -> 0 <= slice_index n i <= n.
Proof. unfold slice_index. destruct (Z.ltb_spec i 0); lia. Qed.

Lemma py_slice_length {A : Type} (l : list A) (a b : Z) :
  length (py_slice l a b)
  = Z.to_nat (slice_index (Z.of_nat (length l)) b
              - slice_index (Z.of_nat (length l)) a).
Proof.
  unfold py_slice. rewrite length_take, length_drop.
  pose proof (slice_index_range (Z.of_nat (length l)) a).
  pose proof (slice_index_range (Z.of_nat (length l)) b).
  lia.
Qed.

Lemma slice_cols_clamped (w : Tensor) (a b : Z) :
  Forall (fun row => length row = t_cols w) (t_rows w) ->
  0 <= shape1 (slice_cols w a b) <= shape1 w
  /\ length (t_rows (slice_cols w a b)) = length (t_rows w)
  /\ Forall (fun row => length row = t_cols (slice_cols w a b))
       (t_rows (slice_cols w a b))
  /\ (0 <= a <= b ->
      shape1 (slice_cols w a b) = Z.min b (shape1 w) - Z.min a (shape1 w)
      /\ t_rows (slice_cols w a b)
         = map (fun row => take (Z.to_nat (Z.min b (shape1 w) - Z.min a (shape1 w)))
                             (drop (Z.to_nat a) row)) (t_rows w))
  /\ (shape1 w <= a <= b -> shape1 (slice_cols w a b) = 0).
Proof.
  intros Hrows. unfold slice_cols, shape1. cbn [t_rows t_cols].
  pose proof (slice_index_range (Z.of_nat (t_cols w)) a).
  pose proof (slice_index_range (Z.of_nat (t_cols w)) b).
  split; [lia|]. split; [by rewrite length_map|]. split; [|split].
  - apply Forall_forall. intros row Hrow.
    apply list_elem_of_fmap in Hrow as (row0 & -> & Hrow0).
    rewrite Forall_forall in Hrows.
    by rewrite py_slice_length, (Hrows row0 Hrow0).
  - intros Hab. unfold slice_index in *.
    destruct (Z.ltb_spec a 0), (Z.ltb_spec b 0); try lia.
    split; [lia|]. apply map_ext_in. intros row Hrow.
    rewrite Forall_forall in Hrows.
    unfold py_slice, slice_index. rewrite (Hrows row) by (by apply list_elem_of_In).
    destruct (Z.ltb_spec a 0), (Z.ltb_spec b 0); try lia.
    destruct (Z.le_ge_cases a (Z.of_nat (t_cols w))).
    + by rewrite (Z.min_l a) by lia.
    + rewrite !drop_ge by (rewrite ?(Hrows row) by (by apply list_elem_of_In); lia).
      by rewrite !take_nil.
  - intros Hab. unfold slice_index in *.
    destruct (Z.ltb_spec a 0), (Z.ltb_spec b 0); lia.
Qed.

(** The slice of line 146 never leaves the buffer. On a buffer of [n]
    samples per channel, bounds [0 <= a <= b] give the [min b n - min a n]
    samples from [min a n] on: the part of [a, b) beyond the end is cut off,
    and nothing is left of a turn that starts at or after the end. The slice
    keeps the channels, all of the same length. *)
Theorem slice_is_clamped (w : Tensor) (a b : Z) :
  Forall (fun row => length row = t_cols w) (t_rows w) ->
  0 <= shape1 (slice_cols w a b) <= shape1 w
  /\ length (t_rows (slice_cols w a b)) = length (t_rows w)
  /\ Forall (fun row => length row = t_cols (slice_cols w a b))
       (t_rows (slice_cols w a b))
  /\ (0 <= a <= b ->
      shape1 (slice_cols w a b) = Z.min b (shape1 w) - Z.min a (shape1 w)
      /\ t_rows (slice_cols w a b)
         = map (fun row => take (Z.to_nat (Z.min b (shape1 w) - Z.min a (shape1 w)))
                             (drop (Z.to_nat a) row)) (t_rows w))
  /\ (shape1 w <= a <= b -> shape1 (slice_cols w a b) = 0).
Proof. apply slice_cols_clamped. Qed.

Lemma slice_is_clamped_witness :
  Forall (fun row => length row = t_cols (Demo.clip 10)) (t_rows (Demo.clip 10))
  /\ shape1 (slice_cols (Demo.clip 10) 6 25) = 4
  /\ shape1 (slice_cols (Demo.clip 10) 12 25) = 0.
Proof.
  assert (Forall (fun row => length row = t_cols (Demo.clip 10))
            (t_rows (Demo.clip 10))) as Hrows by (by repeat constructor).
  split; [exact Hrows|].
  destruct (slice_is_clamped (Demo.clip 10) 6 25 Hrows)
    as (_ & _ & _ & Hin & _).
  destruct (slice_is_clamped (Demo.clip 10) 12 25 Hrows)
    as (_ & _ & _ & _ & Hout).
  split.
  - destruct (Hin ltac:(lia)) as [-> _]. reflexivity.
  - apply Hout. vm_compute. split; discriminate.
Defined.

Section Silence.

Variable self : Models.

Lemma silent_extraction (w : Tensor) (sample_rate a b k : Z) :
  Forall (fun row => length row = t_cols w) (t_rows w) ->
  shape1 w <= a <= b ->
  min_samples sample_rate = inr k ->
  0 < k ->
  extract_calls (slice_cols w a b) sample_rate
  = [CallEmbedding
       (mkTensor (map (fun _ => replicate (Z.to_nat k) (S754_zero false))
                    (t_rows w))
          (Z.to_nat k))].
Proof.
  intros Hrows Hab Hk Hpos. unfold extract_calls. rewrite Hk.
  destruct (slice_cols_clamped w a b Hrows) as (_ & _ & Hwf & _ & Hout).
  specialize (Hout Hab).
  assert (ensure_min_length (slice_cols w a b) k
          = mkTensor (map (fun _ => replicate (Z.to_nat k) (S754_zero false))
                        (t_rows w)) (Z.to_nat k)) as ->; [|done].
  unfold ensure_min_length. rewrite Hout.
  destruct (Z.ltb_spec 0 k); [|lia].
  unfold pad_right. unfold shape1 in Hout.
  assert (t_cols (slice_cols w a b) = 0%nat) as Hc by lia.
  rewrite Hc, Z.sub_0_r in *. f_equal.
  unfold slice_cols in *. cbn [t_rows] in *.
  rewrite map_map. apply map_ext_in. intros row Hrow.
  rewrite Forall_forall in Hwf.
  assert (py_slice row a b = []) as ->; [|done].
  apply nil_length_inv, Hwf, list_elem_of_fmap.
  exists row. split; [done|by apply list_elem_of_In].
Qed.

(** A kept turn that lies beyond the end of the buffer is not refused: its
    slice is empty, the embedding model is invoked on
    [int(0.5 * sample_rate)] zero samples per channel, and the segment of
    the turn is emitted. *)
Theorem turn_beyond_buffer_embeds_silence (w : Tensor) (sample_rate : Z)
    (min_segment_duration : float) (segs : list Segment)
    (st : gmap string string * nat) (turn : Turn) (a b k : Z) (tr : list Call) :
  Forall (fun row => length row = t_cols w) (t_rows w) ->
  survives min_segment_duration turn = true ->
  segment_bounds sample_rate turn = inr (a, b) ->
  shape1 w <= a <= b ->
  min_samples sample_rate = inr k ->
  0 < k ->
  exists seg st',
    loop_body self w sample_rate min_segment_duration (segs, st) turn tr
    = (inr (segs ++ [seg], st'),
       tr ++ [CallEmbedding
                (mkTensor (map (fun _ => replicate (Z.to_nat k) (S754_zero false))
                             (t_rows w))
                   (Z.to_nat k))])
    /\ start_time seg = turn_start turn
    /\ end_time seg = turn_end turn.
Proof.
  intros Hrows Hs Hab Hout Hk Hpos. eexists _, _.
  rewrite (loop_body_kept _ _ _ _ _ _ _ _ _ Hs Hab).
  unfold segment_waveform. rewrite Hab.
  by rewrite (silent_extraction _ _ _ _ _ Hrows Hout Hk Hpos).
Qed.

End Silence.

(** ** The result document and the command line *)

Section Documents.

Variable self : Models.


End Documents.



(** ** The key previews of the scripts *)

Lemma slice_to_take {A : Type} (l : list A) (b : Z) :
  0 <= b -> Scripts.slice_to l b = take (Z.to_nat b) l.
Proof.
  intros Hb. unfold Scripts.slice_to, py_slice, slice_index.
  destruct (Z.ltb_spec 0 0), (Z.ltb_spec b 0); try lia.
  rewrite (Z.min_l 0) by lia. change (Z.to_nat 0) with 0%nat.
  rewrite drop_0, Z.sub_0_r.
  destruct (Z.le_ge_cases b (Z.of_nat (length l))).
  - by rewrite Z.min_l by lia.
  - rewrite Z.min_r by lia. by rewrite !take_ge by lia.
Qed.

Lemma slice_from_drop {A : Type} (l : list A) (a : Z) :
  a < 0 -> Scripts.slice_from l a = drop (length l - Z.to_nat (- a)) l.
Proof.
  intros Ha. unfold Scripts.slice_from, py_slice, slice_index.
  destruct (Z.ltb_spec a 0), (Z.ltb_spec (Z.of_nat (length l)) 0); try lia.
  rewrite Z.min_id.
  replace (Z.to_nat (Z.max (a + Z.of_nat (length l)) 0))
    with (length l - Z.to_nat (- a))%nat by lia.
  apply take_ge. rewrite length_drop. lia.
Qed.

(** The masked key of [check_current_config] shows nothing of a key of at
    most 16 characters. Of a longer key it shows the first eight and the
    last eight characters around three dots, and withholds what lies
    between, which is at least one character. *)
Theorem masked_key_hides_the_middle (api_key : list ascii) :
  ((length api_key <= 16)%nat -> Scripts.masked_key api_key = Scripts.lit "***")
  /\ ((16 < length api_key)%nat ->
      exists hidden,
        api_key = take 8 api_key ++ hidden ++ drop (length api_key - 8) api_key
        /\ length hidden = (length api_key - 16)%nat
        /\ Scripts.masked_key api_key
           = take 8 api_key ++ Scripts.lit "..."
               ++ drop (length api_key - 8) api_key).
Proof.
  unfold Scripts.masked_key. split; intros Hlen.
  - destruct (Z.ltb_spec 16 (Z.of_nat (length api_key))); [lia|done].
  - destruct (Z.ltb_spec 16 (Z.of_nat (length api_key))); [|lia].
    exists (take (length api_key - 16) (drop 8 api_key)).
    split; [|split].
    + rewrite <- (take_drop 8 api_key) at 1. f_equal.
      rewrite <- (take_drop (length api_key - 16) (drop 8 api_key)) at 1.
      f_equal. rewrite drop_drop. f_equal. lia.
    + rewrite length_take, length_drop. lia.
    + by rewrite slice_to_take, slice_from_drop by lia.
Qed.

(** The preview that the quota script prints has no such guard: it shows the
    first eight and the last eight characters, which overlap in a key of at
    most 16 characters and then spell it out in full; a key of at most eight
    characters is printed twice. *)
Theorem key_preview_reveals_short_keys (original_key : list ascii) :
  Scripts.key_preview original_key
  = take 8 original_key ++ Scripts.lit "..."
      ++ drop (length original_key - 8) original_key
  /\ ((length original_key <= 16)%nat ->
      original_key
      = take 8 original_key
          ++ drop (16 - length original_key)
               (drop (length original_key - 8) original_key))
  /\ ((length original_key <= 8)%nat ->
      Scripts.key_preview original_key
      = original_key ++ Scripts.lit "..." ++ original_key).
Proof.
  assert (Scripts.key_preview original_key
          = take 8 original_key ++ Scripts.lit "..."
              ++ drop (length original_key - 8) original_key) as Hshape.
  { unfold Scripts.key_preview. by rewrite slice_to_take, slice_from_drop by lia. }
  split; [exact Hshape|]. split; intros Hlen.
  - rewrite drop_drop.
    destruct (Nat.le_gt_cases (length original_key) 8).
    + rewrite take_ge, drop_ge, app_nil_r by lia. done.
    + replace (length original_key - 8 + (16 - length original_key))%nat
        with 8%nat by lia.
      by rewrite take_drop.
  - rewrite Hshape, take_ge by lia.
    replace (length original_key - 8)%nat with 0%nat by lia. done.
Qed.

Lemma masked_key_hides_the_middle_witness :
  (16 < length (Scripts.lit "AIzaSyD-0123456789-abcdefgh"))%nat
  /\ exists hidden,
      Scripts.lit "AIzaSyD-0123456789-abcdefgh"
      = take 8 (Scripts.lit "AIzaSyD-0123456789-abcdefgh") ++ hidden
          ++ drop (length (Scripts.lit "AIzaSyD-0123456789-abcdefgh") - 8)
               (Scripts.lit "AIzaSyD-0123456789-abcdefgh")
      /\ length hidden = (length (Scripts.lit "AIzaSyD-0123456789-abcdefgh") - 16)%nat
      /\ Scripts.masked_key (Scripts.lit "AIzaSyD-0123456789-abcdefgh")
         = take 8 (Scripts.lit "AIzaSyD-0123456789-abcdefgh") ++ Scripts.lit "..."
             ++ drop (length (Scripts.lit "AIzaSyD-0123456789-abcdefgh") - 8)
                  (Scripts.lit "AIzaSyD-0123456789-abcdefgh").
Proof.
  assert (16 < length (Scripts.lit "AIzaSyD-0123456789-abcdefgh"))%nat as Hlen
      by (vm_compute; lia).
  split; [exact Hlen|].
  apply (proj2 (masked_key_hides_the_middle _) Hlen).
Defined.

Lemma key_preview_reveals_short_keys_witness :
  (length (Scripts.lit "secret") <= 8)%nat
  /\ Scripts.key_preview (Scripts.lit "secret") = Scripts.lit "secret...secret".
Proof.
  assert (length (Scripts.lit "secret") <= 8)%nat as Hlen by (vm_compute; lia).
  split; [exact Hlen|].
  rewrite (proj2 (proj2 (key_preview_reveals_short_keys _)) Hlen). reflexivity.
Defined.

(** ** The quota script and the stored key *)

Lemma db_access_ok {A : Type} (op : list Scripts.Row -> A * list Scripts.Row)
    (w : Scripts.World) :
  hd None (Scripts.faults w) = None ->
  Scripts.db_access op w
  = (inr (op (Scripts.table w)).1,
     Scripts.mkWorld (op (Scripts.table w)).2 (tl (Scripts.faults w))
       (Scripts.posted w)).
Proof.
  unfold Scripts.db_access. intros Hok.
  destruct (Scripts.faults w) as [|[e|] fs]; [|done|];
    by destruct (op (Scripts.table w)).
Qed.

Lemma db_access_fault {A : Type} (op : list Scripts.Row -> A * list Scripts.Row)
    (w : Scripts.World) (e : PyExc) :
  hd None (Scripts.faults w) = Some e ->
  Scripts.db_access op w
  = (inl e, Scripts.mkWorld (Scripts.table w) (tl (Scripts.faults w))
              (Scripts.posted w)).
Proof.
  unfold Scripts.db_access. intros Hfault.
  destruct (Scripts.faults w) as [|[e'|] fs]; [done| |done].
  by injection Hfault as ->.
Qed.

Lemma set_key_set_key (k1 k2 : option (list ascii)) (t : list Scripts.Row) :
  Scripts.set_key k2 (Scripts.set_key k1 t) = Scripts.set_key k2 t.
Proof.
  unfold Scripts.set_key. rewrite map_map. apply map_ext. intros r.
  destruct (Scripts.has_id_1 r) eqn:Hr; [|by rewrite Hr].
  unfold Scripts.has_id_1 in *. cbn [Scripts.row_id]. by rewrite Hr.
Qed.

Lemma set_key_ids (k : option (list ascii)) (t : list Scripts.Row) :
  map Scripts.row_id (Scripts.set_key k t) = map Scripts.row_id t.
Proof.
  unfold Scripts.set_key. rewrite map_map. apply map_ext. intros r.
  by destruct (Scripts.has_id_1 r).
Qed.

Lemma set_key_same (k : option (list ascii)) (t : list Scripts.Row) :
  Forall (fun r => Scripts.has_id_1 r = true -> Scripts.row_key r = k) t ->
  Scripts.set_key k t = t.
Proof.
  unfold Scripts.set_key. induction 1 as [|r t Hr _ IH]; [done|].
  cbn [map]. rewrite IH. f_equal.
  destruct (Scripts.has_id_1 r); [|done].
  destruct r as [id key]. cbn in *. by rewrite Hr.
Qed.

(** The curl test leaves the world as it is, and lets through only what
    [except Exception] does not catch. *)
Lemma test_fallback_with_curl_run (curl : Scripts.CurlOutcome) (w : Scripts.World) :
  exists x,
    Scripts.test_fallback_with_curl curl w = (x, w)
    /\ forall e, x = inl e -> Scripts.is_exception e = false.
Proof.
  unfold Scripts.test_fallback_with_curl, Scripts.except_exception, Scripts.sret.
  destruct curl as [e|[stdout code]].
  - destruct (Scripts.is_exception e) eqn:He.
    + eexists. split; [done|]. by intros e'.
    + eexists. split; [done|]. by intros e' [= <-].
  - eexists. split; [done|]. by intros e'.
Qed.

(** The part of [main] between [try] and [finally]: it uses the database
    once, and leaves the key as it was or invalid. *)
Lemma quota_protected_run (curl : Scripts.CurlOutcome) (w : Scripts.World) :
  exists x t,
    Scripts.except_interrupt_or_exception
      (Scripts.sbind Scripts.set_invalid_api_key
         (fun _ => Scripts.sbind (Scripts.test_fallback_with_curl curl)
                     (fun _ => Scripts.sret tt))) w
    = (x, Scripts.mkWorld t (tl (Scripts.faults w)) (Scripts.posted w))
    /\ (t = Scripts.table w
        \/ t = Scripts.set_key (Some (Scripts.lit "INVALID_KEY_FOR_TESTING"))
                 (Scripts.table w))
    /\ (hd None (Scripts.faults w) = None ->
        t = Scripts.set_key (Some (Scripts.lit "INVALID_KEY_FOR_TESTING"))
              (Scripts.table w))
    /\ (forall e, x = inl e ->
                  Scripts.is_exception e = false
                  /\ exc_class e <> "KeyboardInterrupt").
Proof.
  unfold Scripts.except_interrupt_or_exception, Scripts.sbind at 1,
    Scripts.set_invalid_api_key.
  destruct (hd None (Scripts.faults w)) as [e|] eqn:Hf.
  - rewrite (db_access_fault _ _ _ Hf).
    destruct (String.eqb (exc_class e) "KeyboardInterrupt"
              || Scripts.is_exception e) eqn:Hcatch.
    + eexists _, _. split; [done|]. split; [by left|]. split; [done|].
      by intros e'.
    + eexists _, _. split; [done|]. split; [by left|]. split; [done|].
      intros e' [= <-]. apply orb_false_iff in Hcatch as [Hki He].
      split; [done|]. by apply String.eqb_neq.
  - rewrite (db_access_ok _ _ Hf). cbn [fst snd]. unfold Scripts.sbind.
    destruct (test_fallback_with_curl_run curl
                (Scripts.mkWorld
                   (Scripts.set_key (Some (Scripts.lit "INVALID_KEY_FOR_TESTING"))
                      (Scripts.table w))
                   (tl (Scripts.faults w)) (Scripts.posted w)))
      as (x & -> & Hx).
    destruct x as [e|b].
    + destruct (String.eqb (exc_class e) "KeyboardInterrupt"
                || Scripts.is_exception e) eqn:Hcatch.
      * eexists _, _. split; [done|]. split; [by right|]. split; [done|].
        by intros e'.
      * eexists _, _. split; [done|]. split; [by right|]. split; [done|].
        intros e' [= <-]. apply orb_false_iff in Hcatch as [Hki He].
        split; [done|]. by apply String.eqb_neq.
    + eexists _, _. split; [done|]. split; [by right|]. split; [done|].
      by intros e'.
Qed.

(** When the backup finds a key and the database can be used at the end,
    [main] leaves in every row with id 1 the key it found: whatever curl
    does, returning, raising or being interrupted, and whether the invalid
    key could be written or not. The table is then as before the script
    when no other row with id 1 had another key. [main] raises only what
    neither of its handlers catches. *)
Theorem quota_main_restores_the_key (curl : Scripts.CurlOutcome)
    (w : Scripts.World) (row : Scripts.Row) (k : list ascii) :
  List.find Scripts.has_id_1 (Scripts.table w) = Some row ->
  Scripts.row_key row = Some k ->
  k <> [] ->
  hd None (Scripts.faults w) = None ->
  hd None (tl (tl (Scripts.faults w))) = None ->
  exists x,
    Scripts.quota_main curl w
    = (x, Scripts.mkWorld (Scripts.set_key (Some k) (Scripts.table w))
            (tl (tl (tl (Scripts.faults w)))) (Scripts.posted w))
    /\ map Scripts.row_id (Scripts.set_key (Some k) (Scripts.table w))
       = map Scripts.row_id (Scripts.table w)
    /\ (Forall (fun r => Scripts.has_id_1 r = true -> Scripts.row_key r = Some k)
          (Scripts.table w) ->
        Scripts.set_key (Some k) (Scripts.table w) = Scripts.table w)
    /\ (forall e, x = inl e ->
                  Scripts.is_exception e = false
                  /\ exc_class e <> "KeyboardInterrupt").
Proof.
  intros Hfind Hkey Hk Hok1 Hok3.
  unfold Scripts.quota_main, Scripts.sbind at 1, Scripts.backup_api_key.
  rewrite (db_access_ok _ _ Hok1). cbn [fst snd]. rewrite Hfind, Hkey.
  destruct k as [|c k]; [done|]. cbn [Scripts.truthy negb].
  unfold Scripts.try_finally.
  destruct (quota_protected_run curl
              (Scripts.mkWorld (Scripts.table w) (tl (Scripts.faults w))
                 (Scripts.posted w)))
    as (x & t & -> & Ht & _ & Hx).
  cbn [Scripts.faults Scripts.posted Scripts.table] in *.
  unfold Scripts.restore_api_key.
  rewrite db_access_ok by done. cbn [fst snd Scripts.table Scripts.faults Scripts.posted].
  assert (Scripts.set_key (Some (c :: k)) t
          = Scripts.set_key (Some (c :: k)) (Scripts.table w)) as ->.
  { destruct Ht as [->| ->]; [done|apply set_key_set_key]. }
  exists x. split; [done|]. split; [apply set_key_ids|].
  split; [apply set_key_same|exact Hx].
Qed.

(** When the database cannot be used at the end, the invalid key that
    [main] wrote stays in the table, and [main] raises the error of the
    database. *)
Theorem quota_main_can_leave_the_invalid_key (curl : Scripts.CurlOutcome)
    (w : Scripts.World) (row : Scripts.Row) (k : list ascii) (e : PyExc) :
  List.find Scripts.has_id_1 (Scripts.table w) = Some row ->
  Scripts.row_key row = Some k ->
  k <> [] ->
  hd None (Scripts.faults w) = None ->
  hd None (tl (Scripts.faults w)) = None ->
  hd None (tl (tl (Scripts.faults w))) = Some e ->
  Scripts.quota_main curl w
  = (inl e,
     Scripts.mkWorld
       (Scripts.set_key (Some (Scripts.lit "INVALID_KEY_FOR_TESTING"))
          (Scripts.table w))
       (tl (tl (tl (Scripts.faults w)))) (Scripts.posted w)).
Proof.
  intros Hfind Hkey Hk Hok1 Hok2 Hfault.
  unfold Scripts.quota_main, Scripts.sbind at 1, Scripts.backup_api_key.
  rewrite (db_access_ok _ _ Hok1). cbn [fst snd]. rewrite Hfind, Hkey.
  destruct k as [|c k]; [done|]. cbn [Scripts.truthy negb].
  unfold Scripts.try_finally.
  destruct (quota_protected_run curl
              (Scripts.mkWorld (Scripts.table w) (tl (Scripts.faults w))
                 (Scripts.posted w)))
    as (x & t & -> & _ & Ht & _).
  cbn [Scripts.faults Scripts.posted Scripts.table] in *.
  rewrite (Ht Hok2). unfold Scripts.restore_api_key.
  by rewrite (db_access_fault _ _ e).
Qed.

(** Without a key to back up, no row with id 1, a NULL key or an empty one,
    [main] returns at once and writes nothing. *)
Theorem quota_main_without_key_writes_nothing (curl : Scripts.CurlOutcome)
    (w : Scripts.World) :
  Scripts.truthy (match List.find Scripts.has_id_1 (Scripts.table w) with
                  | Some r => Scripts.row_key r
                  | None => None
                  end) = false ->
  hd None (Scripts.faults w) = None ->
  Scripts.quota_main curl w
  = (inr tt, Scripts.mkWorld (Scripts.table w) (tl (Scripts.faults w))
               (Scripts.posted w)).
Proof.
  intros Hfalsy Hok.
  unfold Scripts.quota_main, Scripts.sbind at 1, Scripts.backup_api_key.
  rewrite (db_access_ok _ _ Hok). cbn [fst snd]. by rewrite Hfalsy.
Qed.

(** ** The direct test of the Gemini API *)

(** [test_gemini_api_directly] never changes the settings and raises only
    what [except Exception] does not catch. It posts at most once, to the
    URL that carries the key of the first row, and not at all without such a
    key. It returns [True] exactly when the database could be read, a key
    was found and the response had status 200. *)
Theorem gemini_test_verdict (post : list ascii -> Exc (Z * list ascii))
    (w : Scripts.World) :
  exists x w',
    Scripts.test_gemini_api_directly post w = (x, w')
    /\ Scripts.table w' = Scripts.table w
    /\ (forall e, x = inl e -> Scripts.is_exception e = false)
    /\ (Scripts.posted w' = Scripts.posted w
        \/ exists r rest k,
            Scripts.table w = r :: rest /\ Scripts.row_key r = Some k /\ k <> []
            /\ Scripts.posted w' = Scripts.posted w ++ [Scripts.gemini_url k])
    /\ (x = inr true
        <-> hd None (Scripts.faults w) = None
            /\ exists r rest k text,
                Scripts.table w = r :: rest /\ Scripts.row_key r = Some k
                /\ k <> []
                /\ post (Scripts.gemini_url k) = inr (200, text)).
Proof.
  unfold Scripts.test_gemini_api_directly, Scripts.except_exception,
    Scripts.sbind.
  destruct (hd None (Scripts.faults w)) as [e|] eqn:Hf.
  { rewrite (db_access_fault _ _ _ Hf).
    destruct (Scripts.is_exception e) eqn:He; eexists _, _;
      (split; [done|]); (split; [done|]).
    - split; [done|]. split; [by left|]. split; [done|]. by intros [? _].
    - split; [by intros e' [= <-]|]. split; [by left|].
      split; [done|]. by intros [? _]. }
  rewrite (db_access_ok _ _ Hf). cbn [fst snd].
  destruct (Scripts.table w) as [|[id [[|c k]|]] rest] eqn:Ht;
    cbn [Scripts.row_key Scripts.sret].
  - eexists _, _. do 2 (split; [done|]). split; [done|]. split; [by left|].
    split; [done|]. by intros (_ & r & rest' & k' & text & ? & _).
  - eexists _, _. do 2 (split; [done|]). split; [done|]. split; [by left|].
    split; [done|].
    intros (_ & r & rest' & k' & text & [= <- _] & [= <-] & Hk & _). done.
  - destruct (post (Scripts.gemini_url (c :: k))) as [e|[status text]] eqn:Hpost.
    + cbn [Scripts.table Scripts.faults Scripts.posted].
      destruct (Scripts.is_exception e) eqn:He; eexists _, _;
        (split; [done|]); (split; [done|]).
      * split; [done|]. split; [right; by eexists _, _, _|].
        split; [done|].
        intros (_ & r & rest' & k' & text & [= <- _] & [= <-] & _ & Hp).
        by rewrite Hpost in Hp.
      * split; [by intros e' [= <-]|]. split; [right; by eexists _, _, _|].
        split; [done|].
        intros (_ & r & rest' & k' & text & [= <- _] & [= <-] & _ & Hp).
        by rewrite Hpost in Hp.
    + cbn [Scripts.table Scripts.faults Scripts.posted].
      eexists _, _. do 2 (split; [done|]). split; [done|].
      split; [right; by eexists _, _, _|].
      destruct (Z.eqb_spec status 200) as [->|Hne].
      * split; [|done]. intros _. split; [done|]. by eexists _, _, _, _.
      * assert ((if status =? 429 then false else false) = false) as ->
            by (by destruct (status =? 429)).
        split; [done|].
        intros (_ & r & rest' & k' & text' & [= <- _] & [= <-] & _ & Hp).
        rewrite Hpost in Hp. by injection Hp as -> _.
  - eexists _, _. do 2 (split; [done|]). split; [done|]. split; [by left|].
    split; [done|].
    by intros (_ & r & rest' & k' & text & [= <- _] & ? & _).
Qed.

(** ** The further properties, on the scenarios *)

Lemma labels_identify_speakers_witness :
  runs_through Demo.engine "meeting.wav" 16000 None None one
    (Demo.clip 160000) 16000 (Demo.clip 160000) Demo.turns (of_Z 10)
  /\ exists r tr',
      process_audio Demo.engine "meeting.wav" 16000 None None one [] = (inr r, tr')
      /\ forall i j seg_i seg_j t_i t_j,
          segments r !! i = Some seg_i ->
          segments r !! j = Some seg_j ->
          List.filter (survives one) Demo.turns !! i = Some t_i ->
          List.filter (survives one) Demo.turns !! j = Some t_j ->
          speaker_label seg_i = speaker_label seg_j <-> speaker t_i = speaker t_j.
Proof.
  split; [exact demo_runs_through|].
  apply (labels_identify_speakers Demo.engine "meeting.wav" 16000 None None one
           (Demo.clip 160000) 16000 (Demo.clip 160000) Demo.turns (of_Z 10) []
           demo_runs_through).
Defined.

Lemma segment_embeddings_follow_invocations_witness :
  runs_through Demo.engine "meeting.wav" 16000 None None one
    (Demo.clip 160000) 16000 (Demo.clip 160000) Demo.turns (of_Z 10)
  /\ min_samples 16000 = inr 8000
  /\ exists r evs,
      process_audio Demo.engine "meeting.wav" 16000 None None one []
      = (inr r, [] ++ evs)
      /\ Forall2 (fun seg passed =>
                    embedding seg
                    = match embedding_model Demo.engine passed with
                      | inr v => v
                      | inl _ => []
                      end)
           (segments r) (embedding_inputs evs).
Proof.
  split; [exact demo_runs_through|]. split; [exact demo_min_samples|].
  apply (segment_embeddings_follow_invocations Demo.engine "meeting.wav" 16000
           None None one (Demo.clip 160000) 16000 (Demo.clip 160000)
           Demo.turns (of_Z 10) [] 8000 demo_runs_through demo_min_samples).
Defined.


Lemma turn_beyond_buffer_embeds_silence_witness :
  let late := mkTurn (of_Z 11) (of_Z 12) "SPEAKER_00" in
  survives one late = true
  /\ segment_bounds 16000 late = inr (176000, 192000)
  /\ shape1 (Demo.clip 10) <= 176000 <= 192000
  /\ exists seg st',
      loop_body Demo.engine (Demo.clip 10) 16000 one ([], (∅, 1%nat)) late []
      = (inr ([] ++ [seg], st'),
         [] ++ [CallEmbedding
                  (mkTensor (map (fun _ => replicate (Z.to_nat 8000) (S754_zero false))
                               (t_rows (Demo.clip 10)))
                     (Z.to_nat 8000))])
      /\ start_time seg = turn_start late
      /\ end_time seg = turn_end late.
Proof.
  cbv zeta.
  assert (shape1 (Demo.clip 10) <= 176000 <= 192000) as Hout
      by (vm_compute; split; discriminate).
  split; [vm_compute; reflexivity|]. split; [vm_compute; reflexivity|].
  split; [exact Hout|].
  apply (turn_beyond_buffer_embeds_silence Demo.engine (Demo.clip 10) 16000
           one [] (∅, 1%nat) (mkTurn (of_Z 11) (of_Z 12) "SPEAKER_00")
           176000 192000 8000 []).
  - by repeat constructor.
  - vm_compute. reflexivity.
  - vm_compute. reflexivity.
  - exact Hout.
  - exact demo_min_samples.
  - reflexivity.
Defined.


Lemma quota_main_restores_the_key_witness :
  let w := Scripts.mkWorld settings_demo
             [None; Some (mkExc "OperationalError" "database is locked"); None] [] in
  exists x,
    Scripts.quota_main (inl (mkExc "KeyboardInterrupt" "")) w
    = (x, Scripts.mkWorld
            (Scripts.set_key (Some (Scripts.lit "AIzaSyD-0123456789-abcdefgh"))
               settings_demo) [] [])
    /\ Scripts.set_key (Some (Scripts.lit "AIzaSyD-0123456789-abcdefgh"))
         settings_demo = settings_demo.
Proof.
  cbv zeta.
  destruct (quota_main_restores_the_key (inl (mkExc "KeyboardInterrupt" ""))
              (Scripts.mkWorld settings_demo
                 [None; Some (mkExc "OperationalError" "database is locked"); None] [])
              (Scripts.mkRow (Scripts.lit "1")
                 (Some (Scripts.lit "AIzaSyD-0123456789-abcdefgh")))
              (Scripts.lit "AIzaSyD-0123456789-abcdefgh")
              eq_refl eq_refl ltac:(discriminate) eq_refl eq_refl)
    as (x & Hrun & _ & Hsame & _).
  exists x. split; [exact Hrun|]. apply Hsame.
  cbn [Scripts.table]. unfold settings_demo.
  constructor; [intros _; reflexivity|].
  constructor; [intros H; vm_compute in H; discriminate H|].
  constructor.
Defined.

Lemma quota_main_can_leave_the_invalid_key_witness :
  Scripts.quota_main (inr (Scripts.lit "{ error: 400 }", 0))
    (Scripts.mkWorld settings_demo
       [None; None; Some (mkExc "OperationalError" "database is locked")] [])
  = (inl (mkExc "OperationalError" "database is locked"),
     Scripts.mkWorld
       (Scripts.set_key (Some (Scripts.lit "INVALID_KEY_FOR_TESTING")) settings_demo)
       [] []).
Proof.
  apply (quota_main_can_leave_the_invalid_key
           (inr (Scripts.lit "{ error: 400 }", 0))
           (Scripts.mkWorld settings_demo
              [None; None; Some (mkExc "OperationalError" "database is locked")] [])
           (Scripts.mkRow (Scripts.lit "1")
              (Some (Scripts.lit "AIzaSyD-0123456789-abcdefgh")))
           (Scripts.lit "AIzaSyD-0123456789-abcdefgh")
           (mkExc "OperationalError" "database is locked")
           eq_refl eq_refl ltac:(discriminate) eq_refl eq_refl eq_refl).
Defined.

Lemma quota_main_without_key_writes_nothing_witness :
  Scripts.quota_main (inr (Scripts.lit "", 0))
    (Scripts.mkWorld [Scripts.mkRow (Scripts.lit "1") (Some [])] [] [])
  = (inr tt, Scripts.mkWorld [Scripts.mkRow (Scripts.lit "1") (Some [])] [] []).
Proof.
  apply (quota_main_without_key_writes_nothing (inr (Scripts.lit "", 0))
           (Scripts.mkWorld [Scripts.mkRow (Scripts.lit "1") (Some [])] [] [])
           eq_refl eq_refl).
Defined.

(** ** The script that checks the fallback *)

Lemma test_gemini_footprint (post : list ascii -> Exc (Z * list ascii))
    (w : Scripts.World) :
  exists x w',
    Scripts.test_gemini_api_directly post w = (x, w')
    /\ Scripts.table w' = Scripts.table w
    /\ (Scripts.posted w' = Scripts.posted w
        \/ exists url, Scripts.posted w' = Scripts.posted w ++ [url]).
Proof.
  unfold Scripts.test_gemini_api_directly, Scripts.except_exception,
    Scripts.sbind.
  destruct (hd None (Scripts.faults w)) as [e|] eqn:Hf.
  { rewrite (db_access_fault _ _ _ Hf).
    destruct (Scripts.is_exception e); eexists _, _;
      (split; [done|]); split; by eauto. }
  rewrite (db_access_ok _ _ Hf). cbn [fst snd].
  destruct (Scripts.table w) as [|[id [[|c k]|]] rest] eqn:Ht;
    cbn [Scripts.row_key Scripts.sret];
    try (eexists _, _; (split; [done|]); split; by eauto).
  destruct (post (Scripts.gemini_url (c :: k))) as [e|[status text]];
    cbn [Scripts.table Scripts.faults Scripts.posted];
    [destruct (Scripts.is_exception e)|];
    eexists _, _; (split; [done|]); split; by eauto.
Qed.

Lemma check_builtin_footprint (fs : Scripts.FileSystem) (w : Scripts.World) :
  exists x, Scripts.check_builtin_ai_setup fs w = (x, w).
Proof.
  unfold Scripts.check_builtin_ai_setup.
  destruct (Scripts.path_exists fs (Scripts.llama_helper_path fs)); [|by eauto].
  destruct (Scripts.getsize fs (Scripts.llama_helper_path fs)); [by eauto|].
  destruct (Scripts.path_exists fs (Scripts.model_path fs)); [|by eauto].
  destruct (Scripts.getsize fs (Scripts.model_path fs)); [by eauto|].
  destruct (Scripts.environ_get fs _); by eauto.
Qed.

(** The fallback check only reads: whatever the collaborators do, it leaves
    the settings as they are and posts at most one request. When the
    settings table is read and is empty, or when the database raises an
    error that [except Exception] catches, it stops after the first use of
    the database, without any request. *)
Theorem fallback_main_only_reads (post : list ascii -> Exc (Z * list ascii))
    (fs : Scripts.FileSystem) (w : Scripts.World) :
  exists x w',
    Scripts.fallback_main post fs w = (x, w')
    /\ Scripts.table w' = Scripts.table w
    /\ (Scripts.posted w' = Scripts.posted w
        \/ exists url, Scripts.posted w' = Scripts.posted w ++ [url])
    /\ (hd None (Scripts.faults w) = None /\ Scripts.table w = []
        \/ (exists e, hd None (Scripts.faults w) = Some e
                      /\ Scripts.is_exception e = true) ->
        x = inr tt
        /\ Scripts.posted w' = Scripts.posted w
        /\ Scripts.faults w' = tl (Scripts.faults w)).
Proof.
  unfold Scripts.fallback_main, Scripts.sbind at 1, Scripts.check_current_config,
    Scripts.except_exception.
  destruct (hd None (Scripts.faults w)) as [e|] eqn:Hf.
  { rewrite (db_access_fault _ _ _ Hf).
    destruct (Scripts.is_exception e) eqn:He; eexists _, _;
      (split; [done|]); (split; [done|]); (split; [by left|]).
    - done.
    - intros [[? _]|(e' & [= <-] & He')]; [done|congruence]. }
  rewrite (db_access_ok _ _ Hf). cbn [fst snd].
  destruct (Scripts.table w) as [|r rest] eqn:Ht.
  - eexists _, _. split; [done|]. split; [done|]. split; [by left|]. done.
  - unfold Scripts.sbind.
    destruct (test_gemini_footprint post
                (Scripts.mkWorld (r :: rest) (tl (Scripts.faults w))
                   (Scripts.posted w)))
      as (x1 & w1 & -> & Ht1 & Hp1).
    destruct x1 as [e|b].
    + eexists _, _. split; [done|]. split; [done|]. split; [done|].
      intros [[_ ?]|(e' & ? & _)]; done.
    + destruct (check_builtin_footprint fs w1) as (x2 & ->).
      destruct x2 as [e|b2]; eexists _, _; (split; [done|]);
        (split; [done|]); (split; [done|]);
        intros [[_ ?]|(e' & ? & _)]; done.
Qed.

(** [check_builtin_ai_setup] returns [True] exactly when the helper binary
    and the model file both exist and their sizes can be read; it raises
    when a file exists and its size cannot be read; the environment
    variable, set or not, does not change what it returns. *)
Theorem builtin_setup_verdict (fs : Scripts.FileSystem) (w : Scripts.World) :
  exists x,
    Scripts.check_builtin_ai_setup fs w = (x, w)
    /\ (x = inr true
        <-> Scripts.path_exists fs (Scripts.llama_helper_path fs) = true
            /\ Scripts.path_exists fs (Scripts.model_path fs) = true
            /\ (exists n, Scripts.getsize fs (Scripts.llama_helper_path fs) = inr n)
            /\ (exists n, Scripts.getsize fs (Scripts.model_path fs) = inr n))
    /\ (forall e,
          x = inl e ->
          Scripts.path_exists fs (Scripts.llama_helper_path fs) = true
          /\ (Scripts.getsize fs (Scripts.llama_helper_path fs) = inl e
              \/ Scripts.path_exists fs (Scripts.model_path fs) = true
                 /\ Scripts.getsize fs (Scripts.model_path fs) = inl e))
    /\ (forall env,
          Scripts.check_builtin_ai_setup
            (Scripts.mkFileSystem (Scripts.expanduser fs) (Scripts.path_exists fs)
               (Scripts.getsize fs) env) w
          = (x, w)).
Proof.
  unfold Scripts.check_builtin_ai_setup, Scripts.llama_helper_path,
    Scripts.model_path.
  cbn [Scripts.expanduser Scripts.path_exists Scripts.getsize Scripts.environ_get].
  destruct (Scripts.path_exists fs _) eqn:H1.
  2:{ eexists. split; [done|]. split; [|done].
      split; [done|]. by intros (? & _). }
  destruct (Scripts.getsize fs _) as [e1|n1] eqn:G1.
  { eexists. split; [done|]. split; [|split].
    - split; [done|]. by intros (_ & _ & [n ?] & _).
    - intros e [= <-]. split; [done|]. by left.
    - done. }
  destruct (Scripts.path_exists fs
              (Scripts.expanduser fs
                 (Scripts.lit "~/.local/share/com.meetily.ai/models/summary/gemma-3-1b-it-Q8_0.gguf")))
    eqn:H2.
  2:{ eexists. split; [done|]. split; [|done].
      split; [done|]. by intros (_ & ? & _). }
  destruct (Scripts.getsize fs
              (Scripts.expanduser fs
                 (Scripts.lit "~/.local/share/com.meetily.ai/models/summary/gemma-3-1b-it-Q8_0.gguf")))
    as [e2|n2] eqn:G2.
  { eexists. split; [done|]. split; [|split].
    - split; [done|]. by intros (_ & _ & _ & [n ?]).
    - intros e [= <-]. split; [done|]. by right.
    - done. }
  exists (inr true). split; [by destruct (Scripts.environ_get fs _)|].
  split; [|split].
  - split; [|done]. intros _.
    split; [done|]. split; [done|]. split; by eexists.
  - done.
  - intros env. by destruct (env _).
Qed.
